(** * Push 3 tools: a shallow embedding of [tools/display_test.py] and of
    the display path of [tools/text_renderer.py], followed by the message
    formatting of [tools/midi_monitor.py] and the LED and SysEx methods of
    [tools/midi_test.py]

    The development follows the display module top to bottom: protocol
    constants, the pixel codec [rgb888_to_rgb565], the framebuffer loops of
    [prepare_image], the XOR pass [encrypt_framebuffer] and the chunked
    transmission of [send_frame].

    Python integers are [Z]; indices and lengths are [nat].  A [bytes] or
    [bytearray] object lives in a store of objects, addressed by reference,
    so that copying ([bytearray(data)], [bytes(encrypted)]) and in-place
    update ([encrypted[i] ^= ...]) are distinct operations.  Methods are
    programs of a state-and-exception monad over that store and the record
    of calls made on the USB endpoint.  [print] under [self.debug] is not
    modelled: it changes neither the store nor the endpoint. *)

From Stdlib Require Import ZArith List String Lia.
From stdpp Require Import base numbers option list gmap pretty.

Local Open Scope Z_scope.

(** ** Values, exceptions, the object store *)

(** Exceptions the module and its collaborators raise. *)
Inductive exn : Type :=
  | RuntimeError (msg : string)
  | IndexError
  | ValueError
  | TypeError
  | StructError
  | USBError (errno : Z)
  | OSError (errno : Z).

Inductive result (A : Type) : Type :=
  | Ok (a : A)
  | Raise (e : exn).
Arguments Ok {A} a.
Arguments Raise {A} e.

(** A byte is an integer of [range(256)]. *)
Definition is_byte (v : Z) : Prop := 0 ≤ v < 256.
Definition is_byteb (v : Z) : bool := (0 <=? v) && (v <? 256).
Definition is_bytes (b : list Z) : Prop := Forall is_byte b.

(** Objects of the store: immutable [bytes] and mutable [bytearray]. *)
Inductive buffer : Type :=
  | Bytes (content : list Z)
  | ByteArray (content : list Z).

Definition contents (o : buffer) : list Z :=
  match o with Bytes c => c | ByteArray c => c end.

Definition loc := positive.

(** One call of [device.write(endpoint, data)], as the endpoint sees it. *)
Record usb_call : Type := UsbCall { call_endpoint : Z; call_data : list Z }.

(** The USB device is an external collaborator.  A write either returns or
    raises; which one may depend on every call made so far and on the call
    itself. *)
Record usb_device : Type :=
  UsbDevice { write_outcome : list usb_call → Z → list Z → option exn }.

Record world : Type :=
  World { heap : gmap loc buffer; usb_log : list usb_call }.

(** ** The monad of method bodies *)

Definition M (A : Type) : Type := world → world * result A.

Definition ret {A} (a : A) : M A := λ w, (w, Ok a).
Definition raise {A} (e : exn) : M A := λ w, (w, Raise e).
Definition bind {A B} (c : M A) (k : A → M B) : M B :=
  λ w, match c w with
       | (w', Ok a) => k a w'
       | (w', Raise e) => (w', Raise e)
       end.

Notation "'let!' x ':=' c 'in' k" := (bind c (λ x, k))
  (at level 10, x name, c at level 100, k at level 200).
Notation "'let!' ' pat ':=' c 'in' k" := (bind c (λ x, match x with pat => k end))
  (at level 10, pat pattern, c at level 100, k at level 200).

(** [for x in xs: body], with the loop's local variables threaded as [s]. *)
Fixpoint for_fold {A S} (xs : list A) (s : S) (body : A → S → M S) : M S :=
  match xs with
  | [] => ret s
  | x :: xs' => let! s' := body x s in for_fold xs' s' body
  end.

Definition for_each {A} (xs : list A) (body : A → M unit) : M unit :=
  for_fold xs tt (λ x _, body x).

(** *** Primitive operations on the store *)

Definition alloc (o : buffer) : M loc :=
  λ w, let l := fresh (dom (heap w)) in
       (World (<[l := o]> (heap w)) (usb_log w), Ok l).

Definition load (l : loc) : M buffer :=
  λ w, match heap w !! l with
       | Some o => (w, Ok o)
       | None => (w, Raise TypeError)
       end.

(** [bytearray(data)]: a new mutable object holding a copy of the bytes. *)
Definition bytearray_of (data : loc) : M loc :=
  let! o := load data in alloc (ByteArray (contents o)).

(** [bytes(data)]: a new immutable object holding a copy of the bytes. *)
Definition bytes_of (data : loc) : M loc :=
  let! o := load data in alloc (Bytes (contents o)).

(** [len(buf)] *)
Definition len (buf : loc) : M nat :=
  let! o := load buf in ret (length (contents o)).

(** [buf[i]] for a non-negative index *)
Definition getitem (buf : loc) (i : nat) : M Z :=
  let! o := load buf in
  match contents o !! i with
  | Some v => ret v
  | None => raise IndexError
  end.

(** [buf[i] = v]: only a [bytearray] supports item assignment, the index
    must be in range and the value a byte. *)
Definition setitem (buf : loc) (i : nat) (v : Z) : M unit :=
  let! o := load buf in
  match o with
  | Bytes _ => raise TypeError
  | ByteArray c =>
      if decide (i < length c)%nat then
        if is_byteb v then
          λ w, (World (<[buf := ByteArray (<[i := v]> c)]> (heap w)) (usb_log w), Ok tt)
        else raise ValueError
      else raise IndexError
  end.

(** [buf[i:j]] for non-negative bounds: the slice is clipped to the buffer. *)
Definition slice (c : list Z) (i j : nat) : list Z := take (j - i) (drop i c).

Definition getslice (buf : loc) (i j : nat) : M (list Z) :=
  let! o := load buf in ret (slice (contents o) i j).

(** [seq[i]] on a Python list *)
Definition list_getitem (xs : list Z) (i : nat) : M Z :=
  match xs !! i with
  | Some v => ret v
  | None => raise IndexError
  end.

(** [range(start, stop, step)] for non-negative arguments; a zero step is a
    [ValueError]. *)
Definition py_range (start stop step : nat) : M (list nat) :=
  if decide (step = 0)%nat then raise ValueError
  else ret ((λ j, start + j * step)%nat <$> seq 0 ((stop - start + (step - 1)) `div` step)).

(** [device.write(endpoint, data)] *)
Definition usb_write (dev : usb_device) (endpoint : Z) (data : list Z) : M Z :=
  λ w, let w' := World (heap w) (usb_log w ++ [UsbCall endpoint data]) in
       match write_outcome dev (usb_log w) endpoint data with
       | None => (w', Ok (Z.of_nat (length data)))
       | Some e => (w', Raise e)
       end.

(** ** Protocol constants *)

Definition VENDOR_ID : Z := 0x2982.
Definition PRODUCT_ID : Z := 0x1969.

Definition FRAME_HEADER : list Z :=
  [0xFF; 0xCC; 0xAA; 0x88;
   0x00; 0x00; 0x00; 0x00;
   0x00; 0x00; 0x00; 0x00;
   0x00; 0x00; 0x00; 0x00].
Definition XOR_PATTERN : list Z := [0xE7; 0xF3; 0xE7; 0xFF].

Definition DISPLAY_WIDTH : nat := Z.to_nat 960.
Definition DISPLAY_HEIGHT : nat := Z.to_nat 160.
Definition LINE_PADDING : nat := Z.to_nat 128.
Definition CHUNK_SIZE : nat := Z.to_nat 16384.

(** ** [Push3Display.rgb888_to_rgb565] *)

Definition rgb888_to_rgb565 (r g b : Z) : Z :=
  let r5 := Z.land (r ≫ 3) 0x1F in
  let g6 := Z.land (g ≫ 2) 0x3F in
  let b5 := Z.land (b ≫ 3) 0x1F in
  Z.lor (Z.lor (r5 ≪ 11) (g6 ≪ 5)) b5.

(** ** The image library (external) and [Push3Display.prepare_image] *)

(** [struct.pack('<H', v)]: two bytes, low byte first; [struct.error] when
    [v] is not an unsigned 16-bit value. *)
Definition struct_pack_H (v : Z) : M (list Z) :=
  if (0 <=? v) && (v <=? 0xFFFF) then ret [Z.land v 0xFF; Z.land (v ≫ 8) 0xFF]
  else raise StructError.

(** A decoded image: its size and its pixels.  A pixel of an image as
    opened is a tuple of band values, whatever the mode; after
    [convert('RGB')] it is a triple of channel values. *)
Record image (P : Type) : Type :=
  Image { im_size : nat * nat; im_pixel : nat → nat → P }.
Arguments Image {P} _ _.
Arguments im_size {P} _.
Arguments im_pixel {P} _ _ _.

Definition raw_pixel : Type := list Z.
Definition rgb_pixel : Type := (Z * Z * Z)%type.

(** What the method takes from outside: the file system behind
    [Image.open], the resampling filter behind [Image.resize], the colour
    conversion behind [Image.convert], and the bus behind [usb.core.find]
    and [Device.set_configuration]. *)
Record environment : Type :=
  Environment {
    image_file : string → result (image raw_pixel);
    lanczos : image raw_pixel → nat * nat → nat → nat → raw_pixel;
    to_rgb : raw_pixel → rgb_pixel;
    usb_find : Z → Z → option usb_device;
    set_configuration : usb_device → option exn;
    exn_text : exn → string
  }.

(** [Image.open(path)] *)
Definition Image_open (env : environment) (path : string) : M (image raw_pixel) :=
  match image_file env path with
  | Ok img => ret img
  | Raise e => raise e
  end.

(** [img.resize(size, Image.LANCZOS)]: a new image of exactly [size]. *)
Definition Image_resize (env : environment) (img : image raw_pixel) (size : nat * nat)
    : image raw_pixel :=
  Image size (lanczos env img size).

(** [img.convert('RGB')]: same size, every pixel converted. *)
Definition Image_convert_RGB (env : environment) (img : image raw_pixel)
    : image rgb_pixel :=
  Image (im_size img) (λ x y, to_rgb env (im_pixel img x y)).

(** [img.getpixel((x, y))] for non-negative coordinates *)
Definition getpixel {P} (img : image P) (x y : nat) : M P :=
  if decide (x < fst (im_size img) ∧ y < snd (im_size img))%nat
  then ret (im_pixel img x y)
  else raise IndexError.

(** The loops of [prepare_image], for a raster of [width] by [height]
    pixels and [padding] bytes after each line.  [line_data] and
    [framebuffer] are local bytearrays that only grow by [extend]; they
    are the loop variables here. *)
Definition line_loop (width : nat) (img : image rgb_pixel) (y : nat) : M (list Z) :=
  for_fold (seq 0 width) [] (λ x line_data,
    let! '(r, g, b) := getpixel img x y in
    let rgb565 := rgb888_to_rgb565 r g b in
    let! packed := struct_pack_H rgb565 in
    ret (line_data ++ packed)).

Definition framebuffer_loop (width height padding : nat) (img : image rgb_pixel)
    : M (list Z) :=
  for_fold (seq 0 height) [] (λ y framebuffer,
    let! line_data := line_loop width img y in
    let line_data := line_data ++ replicate padding 0 in
    ret (framebuffer ++ line_data)).

Definition prepare_image (env : environment) (image_path : string) : M loc :=
  let! img := Image_open env image_path in
  let img := Image_resize env img (DISPLAY_WIDTH, DISPLAY_HEIGHT) in
  let img := Image_convert_RGB env img in
  let! framebuffer := framebuffer_loop DISPLAY_WIDTH DISPLAY_HEIGHT LINE_PADDING img in
  alloc (Bytes framebuffer).

(** ** [Push3Display]: the object and [connect] *)

Record Push3Display : Type :=
  Display { device : option usb_device; debug : bool }.

(** [__init__] *)
Definition init (debug : bool) : Push3Display := Display None debug.

(** [connect] assigns [self.device] before it checks or configures it, so
    the object is returned next to the outcome. *)
Definition connect (env : environment) (self : Push3Display)
    : Push3Display * result unit :=
  let self := Display (usb_find env VENDOR_ID PRODUCT_ID) (debug self) in
  match device self with
  | None =>
      (self, Raise (RuntimeError "Push 3 device not found. Make sure it's connected via USB."))
  | Some dev =>
      match set_configuration env dev with
      | None => (self, Ok tt)
      | Some e =>
          (self, Raise (RuntimeError ("Failed to configure device: " ++ exn_text env e)))
      end
  end.

(** ** [Push3Display.encrypt_framebuffer] *)

(** The body of the method for a pattern [pattern]; the method itself uses
    the module constant.  [xor_item] is the statement
    [encrypted[i] ^= pattern[i % 4]]. *)
Definition xor_item (pattern : list Z) (encrypted : loc) (i : nat) : M unit :=
  let! v := getitem encrypted i in
  let! k := list_getitem pattern (i `mod` 4) in
  setitem encrypted i (Z.lxor v k).

Definition encrypt_with (pattern : list Z) (data : loc) : M loc :=
  let! encrypted := bytearray_of data in
  let! n := len encrypted in
  let! _ := for_each (seq 0 n) (xor_item pattern encrypted) in
  bytes_of encrypted.

Definition encrypt_framebuffer (data : loc) : M loc :=
  encrypt_with XOR_PATTERN data.

(** ** [Push3Display.send_frame] *)

(** The chunk loop; [send_chunk] is its body.  [bytes_sent] is the loop's
    only local state, and it is lost when a write raises. *)
Definition send_chunk (dev : usb_device) (chunk_size : nat) (encrypted : loc)
    (i : nat) (bytes_sent : nat) : M nat :=
  let! chunk := getslice encrypted i (i + chunk_size) in
  let! _ := usb_write dev 0x01 chunk in
  ret (bytes_sent + length chunk)%nat.

Definition chunk_loop (dev : usb_device) (chunk_size : nat) (encrypted : loc)
    (offsets : list nat) : M nat :=
  for_fold offsets 0%nat (send_chunk dev chunk_size encrypted).

(** The body of the method for a pattern and a chunk size; the method
    itself uses the module constants.  [not self.device] holds exactly
    when no device is assigned: a device object is truthy. *)
Definition send_frame_with (pattern : list Z) (chunk_size : nat)
    (self : Push3Display) (framebuffer : loc) : M unit :=
  match device self with
  | None => raise (RuntimeError "Device not connected. Call connect() first.")
  | Some dev =>
      let! _ := usb_write dev 0x01 FRAME_HEADER in
      let! encrypted := encrypt_with pattern framebuffer in
      let! n := len encrypted in
      let! offsets := py_range 0 n chunk_size in
      let! _ := chunk_loop dev chunk_size encrypted offsets in
      ret tt
  end.

Definition send_frame (self : Push3Display) (framebuffer : loc) : M unit :=
  send_frame_with XOR_PATTERN CHUNK_SIZE self framebuffer.

(** ** [Push3Display.display_image] *)

Definition display_image (env : environment) (self : Push3Display)
    (image_path : string) : M unit :=
  let! framebuffer := prepare_image env image_path in
  send_frame self framebuffer.

(** * Descriptions the code is compared with *)

(** The XOR pass as a map over positions: byte [i] against [pattern[i % 4]]. *)
Definition xor_bytes (pattern : list Z) (b : list Z) : list Z :=
  imap (λ i v, Z.lxor v (pattern !!! (i `mod` 4)%nat)) b.

(** The chunks of a payload, in order. *)
Definition chunk_count (chunk_size n : nat) : nat :=
  ((n + (chunk_size - 1)) `div` chunk_size)%nat.

Definition chunks (chunk_size : nat) (payload : list Z) : list (list Z) :=
  (λ j, take chunk_size (drop (j * chunk_size) payload))
    <$> seq 0 (chunk_count chunk_size (length payload)).

(** What a device does with a sequence of calls made one after the other:
    the record of the calls attempted and the exception that stopped them,
    if any. *)
Fixpoint transmit (dev : usb_device) (log : list usb_call) (calls : list usb_call)
    : list usb_call * option exn :=
  match calls with
  | [] => (log, None)
  | c :: calls' =>
      match write_outcome dev log (call_endpoint c) (call_data c) with
      | None => transmit dev (log ++ [c]) calls'
      | Some e => (log ++ [c], Some e)
      end
  end.

(** The calls of one frame: the header, then every chunk of the obfuscated
    framebuffer, all on endpoint 1. *)
Definition frame_calls (pattern : list Z) (chunk_size : nat) (b : list Z)
    : list usb_call :=
  UsbCall 0x01 FRAME_HEADER :: (UsbCall 0x01 <$> chunks chunk_size (xor_bytes pattern b)).

(** A scanline and a framebuffer as concatenations. *)
Definition le16 (v : Z) : list Z := [Z.land v 0xFF; Z.land (v ≫ 8) 0xFF].

Definition packed_pixel (img : image rgb_pixel) (x y : nat) : Z :=
  let '(r, g, b) := im_pixel img x y in rgb888_to_rgb565 r g b.

Definition scanline (width padding : nat) (img : image rgb_pixel) (y : nat) : list Z :=
  concat ((λ x, le16 (packed_pixel img x y)) <$> seq 0 width) ++ replicate padding 0.

Definition framebuffer_of (width height padding : nat) (img : image rgb_pixel) : list Z :=
  concat (scanline width padding img <$> seq 0 height).

(** The three fields of a packed pixel, as the codec cuts them from the
    channels. *)
Definition field5 (v : Z) : Z := Z.land (v ≫ 3) 0x1F.
Definition field6 (v : Z) : Z := Z.land (v ≫ 2) 0x3F.

(** The state of the bytearray after the loop has visited positions
    [a, a + k). *)
Fixpoint xor_from (pattern : list Z) (a k : nat) (c : list Z) : list Z :=
  match k with
  | O => c
  | S k' => xor_from pattern (S a) k'
              (<[a := Z.lxor (c !!! a) (pattern !!! (a `mod` 4)%nat)]> c)
  end.


(** [keeps h0 c]: every object of [h0] that the store holds before [c] is
    still there, unchanged, after [c], whether [c] returns or raises. *)
Definition keeps {A} (h0 : gmap loc buffer) (c : M A) : Prop :=
  ∀ w, h0 ⊆ heap w → h0 ⊆ heap (c w).1.


(** ** Sample collaborators *)

(** A device that answers by the number of calls it has seen. *)
Definition scripted (script : nat → option exn) : usb_device :=
  UsbDevice (λ log _ _, script (length log)).

Definition reliable : usb_device := scripted (λ _, None).

(** Every call goes through but call number [n], counted from 0, which
    raises [e]. *)
Definition fails_at (n : nat) (e : exn) : usb_device :=
  scripted (λ k, if decide (k = n) then Some e else None).

(** A store holding one [bytes] object, at reference 1, and an endpoint
    that has seen nothing yet. *)
Definition store_of (b : list Z) : world := World {[ 1%positive := Bytes b ]} [].

(** A 2 by 2 image and the simplest image library: every file opens as
    that image, resizing repeats the top left pixel, conversion reads the
    three bands. *)
Definition tiny_image : image raw_pixel := Image (2%nat, 2%nat) (λ _ _, [255; 0; 0]).

Definition sample_env : environment :=
  Environment
    (λ _, Ok tiny_image)
    (λ img _ _ _, im_pixel img 0%nat 0%nat)
    (λ p, match p with [r; g; b] => (r, g, b) | _ => (0, 0, 0) end)
    (λ _ _, Some reliable)
    (λ _, None)
    (λ _, "error"%string).

(** What the specification asks of a failed chunk write: an exception from
    which the failing chunk and the bytes sent before it can be read. *)
Definition failure_reports_stage (report : exn → nat * nat) : Prop :=
  ∀ (b : list Z) (k : nat) (e : exn),
    is_bytes b → (k < chunk_count CHUNK_SIZE (length b))%nat →
    ∃ ex, (send_frame (Display (Some (fails_at (S k) e)) false) 1%positive (store_of b)).2
            = Raise ex
          ∧ report ex = (k, k * CHUNK_SIZE)%nat.

(** * [tools/text_renderer.py]: [Push3TextRenderer.display_image] *)

(** The renderer hands its image to [Push3Display] through the file
    system: it saves the image under a fixed name next to the script, has
    [Push3Display.display_image] open that file, and removes the file in a
    [finally] clause.  What the disk holds under a name is an image that
    [Image.open] returns, or bytes that are no image, kept with the
    exception [Image.open] raises on them. *)
Inductive file : Type :=
  | ImageFile (img : image raw_pixel)
  | Unreadable (e : exn).

(** The state of the renderer: the files on disk, its [Push3Display]
    object ([self.display]) and the world of that object. *)
Record renderer_state : Type :=
  RendererState {
    files : gmap string file;
    display : Push3Display;
    rworld : world
  }.

(** An [img.save] that raises: the exception, and what the library leaves
    under the name, given what the name held before.  The file may not
    have been opened at all (the name holds what it held), or it was
    opened for writing and the encoder failed (an earlier file is
    truncated; a file created by the call is removed or left, depending
    on the version of the library). *)
Record save_failure : Type :=
  SaveFailure {
    save_exn : exn;
    save_leaves : option file → option file
  }.

(** What the renderer takes from outside: the collaborators of
    [Push3Display], whether and how [img.save] fails, and where the script
    lives ([Path(__file__).parent / "temp_display.png"]). *)
Record renderer_env : Type :=
  RendererEnv {
    r_env : environment;
    save_error : option save_failure;
    temp_path : string
  }.

(** The image library over the files on disk: [Image.open] returns the
    image saved under the path (PNG is lossless), raises what an
    unreadable file makes it raise, and raises [FileNotFoundError],
    errno 2, when there is no file. *)
Definition env_on (env : environment) (fs : gmap string file) : environment :=
  Environment
    (λ path, match fs !! path with
             | Some (ImageFile img) => Ok img
             | Some (Unreadable e) => Raise e
             | None => Raise (OSError 2)
             end)
    (lanczos env) (to_rgb env) (usb_find env) (set_configuration env) (exn_text env).

(** [display_image(self, img)].  [img.save] is called before the [try]:
    when it raises, the method is left at once, the [finally] clause is
    not reached, and the name holds what the failed save left there.
    Otherwise the body of [try] runs, [connect] then [display_image],
    stopping at the first exception, and the [finally] clause removes the
    file if it exists before the outcome of the body is passed on. *)
Definition renderer_display_image (renv : renderer_env) (img : image raw_pixel)
    (st : renderer_state) : renderer_state * result unit :=
  match save_error renv with
  | Some f =>
      (RendererState (partial_alter (save_leaves f) (temp_path renv) (files st))
         (display st) (rworld st),
       Raise (save_exn f))
  | None =>
      let fs := <[temp_path renv := ImageFile img]> (files st) in
      let '(self_display, connected) := connect (r_env renv) (display st) in
      let '(w, outcome) :=
        match connected with
        | Ok _ => display_image (env_on (r_env renv) fs) self_display (temp_path renv) (rworld st)
        | Raise e => (rworld st, Raise e)
        end in
      let fs := if decide (is_Some (fs !! temp_path renv))
                then delete (temp_path renv) fs else fs in
      (RendererState fs self_display w, outcome)
  end.

(** A bus on which the device is found but cannot be configured. *)
Definition unconfigured_env : environment :=
  Environment
    (λ _, Ok tiny_image)
    (λ img _ _ _, im_pixel img 0%nat 0%nat)
    (λ p, match p with [r; g; b] => (r, g, b) | _ => (0, 0, 0) end)
    (λ _ _, Some reliable)
    (λ _, Some (USBError 13))
    (λ _, "Access denied"%string).

(** A bus with no device on it. *)
Definition empty_bus_env : environment :=
  Environment
    (λ _, Ok tiny_image)
    (λ img _ _ _, im_pixel img 0%nat 0%nat)
    (λ p, match p with [r; g; b] => (r, g, b) | _ => (0, 0, 0) end)
    (λ _ _, None)
    (λ _, None)
    (λ _, "error"%string).

(** An image library whose files do not open. *)
Definition no_file_env : environment :=
  Environment
    (λ _, Raise (OSError 2))
    (λ img _ _ _, im_pixel img 0%nat 0%nat)
    (λ p, match p with [r; g; b] => (r, g, b) | _ => (0, 0, 0) end)
    (λ _ _, Some reliable)
    (λ _, None)
    (λ _, "error"%string).

(** * [tools/display_test.py]: [main] *)



(** * [tools/midi_monitor.py] and [tools/midi_test.py] *)

(** ** What the two tools share: mido messages and ports *)

Module Midi.

(** Exceptions of the MIDI tools.  [PortError] stands for whatever a port
    of the backend raises. *)
Inductive error : Type :=
  | RuntimeError (msg : string)
  | ValueError
  | AttributeError
  | IndexError
  | PortError (text : string).

Inductive outcome (A : Type) : Type :=
  | Return (a : A)
  | Raised (e : error).
Arguments Return {A} a.
Arguments Raised {A} e.

(** A [mido.Message], for the types the tools build or tell apart; any
    other type is kept by its name. *)
Inductive message : Type :=
  | ControlChange (channel control value : Z)
  | NoteOn (channel note velocity : Z)
  | NoteOff (channel note velocity : Z)
  | Sysex (data : list Z)
  | OtherType (type : string).

(** mido checks every field when a message is built: a data byte is an
    integer of [0, 127], a channel one of [0, 15]; anything else is a
    [ValueError]. *)
Definition data_byte (v : Z) : bool := (0 <=? v) && (v <=? 127).
Definition channel_ok (v : Z) : bool := (0 <=? v) && (v <=? 15).

(** [mido.Message('control_change', control=, value=, channel=)] *)
Definition Message_control_change (control value channel : Z) : outcome message :=
  if channel_ok channel && data_byte control && data_byte value
  then Return (ControlChange channel control value) else Raised ValueError.

(** [mido.Message('note_on', note=, velocity=, channel=)] *)
Definition Message_note_on (note velocity channel : Z) : outcome message :=
  if channel_ok channel && data_byte note && data_byte velocity
  then Return (NoteOn channel note velocity) else Raised ValueError.

(** [mido.Message('sysex', data=)] *)
Definition Message_sysex (data : list Z) : outcome message :=
  if forallb data_byte data then Return (Sysex data) else Raised ValueError.

(** An output port is an external collaborator: [send] either returns or
    raises, which may depend on what was sent before and on the message.
    The record of a run is the list of messages handed to [send]. *)
Record port : Type :=
  Port { port_name : string; send_outcome : list message → message → option error }.

(** [port.send(msg)] *)
Definition send (p : port) (msg : message) (sent : list message)
    : list message * outcome unit :=
  match send_outcome p sent msg with
  | None => (sent ++ [msg], Return tt)
  | Some e => (sent ++ [msg], Raised e)
  end.

(** [str(n)] and [f"{n:02X}"] for an integer; the second is written for
    the values a data byte can take, two hexadecimal digits. *)
Definition str (n : Z) : string := pretty n.

Definition hex_digit (d : Z) : string :=
  match d with
  | 0 => "0" | 1 => "1" | 2 => "2" | 3 => "3" | 4 => "4" | 5 => "5" | 6 => "6" | 7 => "7"
  | 8 => "8" | 9 => "9" | 10 => "A" | 11 => "B" | 12 => "C" | 13 => "D" | 14 => "E"
  | _ => "F"
  end.

Definition format_02X (v : Z) : string :=
  (hex_digit (v `div` 16) ++ hex_digit (v `mod` 16))%string.

Definition MANUFACTURER_ID : list Z := [0x00; 0x21; 0x1D].
Definition DEVICE_ID : list Z := [0x01; 0x01].

End Midi.

(** ** [midi_monitor.py]: the formatting methods of [Push3MIDIMonitor] *)

Module Monitor.
Import Midi.

Definition CC_BUTTON_NAMES : gmap Z string :=
  list_to_map
    [(3, "Tap Tempo"); (9, "Metronome"); (10, "Swing/Tempo"); (11, "Jogwheel");
     (15, "Swing/Tempo"); (94, "Jogwheel"); (28, "Master Track"); (29, "Stop");
     (30, "Setup"); (31, "Layout"); (32, "Add"); (33, "Swap"); (34, "Session");
     (35, "Convert"); (36, "1/4 Repeat"); (37, "1/4t Repeat"); (38, "1/8 Repeat");
     (39, "1/8t Repeat"); (40, "1/16 Repeat"); (41, "1/16t Repeat"); (42, "1/32 Repeat");
     (43, "1/32t Repeat"); (44, "D-Pad Left"); (45, "D-Pad Right"); (46, "D-Pad Up");
     (47, "D-Pad Down"); (48, "Select"); (49, "Shift"); (50, "Note"); (51, "Session");
     (54, "Octave Down"); (55, "Octave Up"); (56, "Repeat"); (57, "Accent"); (58, "Scale");
     (59, "User Mode"); (60, "Mute"); (61, "Solo"); (62, "Page Left"); (63, "Page Right");
     (65, "Capture"); (80, "Sets"); (81, "Learn"); (82, "Save"); (83, "Lock"); (85, "Play");
     (86, "Record"); (88, "Duplicate"); (89, "Automate"); (90, "Fixed Length");
     (91, "D-Pad Center"); (92, "New"); (110, "Device"); (111, "Volume"); (112, "Mix");
     (113, "Clip"); (116, "Quantize"); (117, "Double Loop"); (118, "Delete");
     (119, "Undo")]%string.

Definition ENCODER_TOUCH_CCS : list Z := seqZ 0 8.
Definition ENCODER_TURN_CCS : list Z := seqZ 71 8.
Definition SPECIAL_TOUCH_CCS : gmap Z string :=
  list_to_map [(8, "Volume Touch"); (10, "Swing/Tempo Touch"); (11, "Jog Wheel Touch");
               (12, "Touch Strip")]%string.
Definition SPECIAL_TURN_CCS : gmap Z string :=
  list_to_map [(14, "Swing/Tempo Turn"); (70, "Jog Wheel Scroll"); (79, "Volume Turn")]%string.
Definition UPPER_DISPLAY_CCS : list Z := seqZ 102 8.
Definition LOWER_DISPLAY_CCS : list Z := seqZ 20 8.

(** ["PRESSED" if value > 0 else "RELEASED"] *)
Definition pressed (value : Z) : string :=
  if decide (0 < value) then "PRESSED"%string else "RELEASED"%string.

(** [format_cc_message(self, msg, timestamp)]; reading [msg.control] of a
    message that has none is an [AttributeError]. *)
Definition format_cc_message (msg : message) (timestamp : string) : outcome string :=
  match msg with
  | ControlChange _ cc value =>
      Return (
        if decide (cc = 111) then
          let state := if decide (value = 0) then "PRESSED"
                       else if decide (value = 127) then "RELEASED"
                       else "VAL(" ++ str value ++ ")" in
          timestamp ++ " | BUTTON: Pressed (CC 111) " ++ state ++ " (vel: " ++ str value ++ ")"
        else if decide (cc = 93) then
          timestamp ++ " | JOGWHEEL: " ++ "NUDGE LEFT" ++ " (CC 93) (val: " ++ str value ++ ")"
        else if decide (cc = 95) then
          timestamp ++ " | JOGWHEEL: " ++ "NUDGE RIGHT" ++ " (CC 95) (val: " ++ str value ++ ")"
        else match CC_BUTTON_NAMES !! cc with
        | Some name =>
            timestamp ++ " | BUTTON: " ++ name ++ " (" ++ str cc ++ ") " ++ pressed value
              ++ " (vel: " ++ str value ++ ")"
        | None =>
        if bool_decide (cc ∈ ENCODER_TOUCH_CCS) then
          let encoder_num := (cc + 1)%Z in
          timestamp ++ " | ENCODER: Encoder " ++ str encoder_num ++ " TOUCHED"
        else if bool_decide (cc ∈ ENCODER_TURN_CCS) then
          let encoder_num := (cc - 70)%Z in
          let direction := if decide (value = 127) then "LEFT"
                           else if decide (value = 1) then "RIGHT"
                           else "UNKNOWN(" ++ str value ++ ")" in
          timestamp ++ " | ENCODER: Encoder " ++ str encoder_num ++ " turned " ++ direction
        else match SPECIAL_TOUCH_CCS !! cc with
        | Some name => timestamp ++ " | TOUCH: " ++ name
        | None =>
        match SPECIAL_TURN_CCS !! cc with
        | Some name =>
            let direction := if decide (value = 127) then "LEFT"
                             else if decide (value = 1) then "RIGHT"
                             else "VAL(" ++ str value ++ ")" in
            timestamp ++ " | CONTROL: " ++ name ++ " " ++ direction
        | None =>
        if bool_decide (cc ∈ UPPER_DISPLAY_CCS) then
          let button_num := (cc - 101)%Z in
          timestamp ++ " | DISPLAY: Upper button " ++ str button_num ++ " " ++ pressed value
        else if bool_decide (cc ∈ LOWER_DISPLAY_CCS) then
          let button_num := (cc - 19)%Z in
          timestamp ++ " | DISPLAY: Lower button " ++ str button_num ++ " " ++ pressed value
        else
          timestamp ++ " | CC: " ++ str cc ++ " = " ++ str value ++ " (unknown)"
        end end end)%string
  | _ => Raised AttributeError
  end.

(** [format_note_message(self, msg, timestamp, state)] *)
Definition format_note_message (msg : message) (timestamp state : string) : outcome string :=
  match msg with
  | NoteOn _ note velocity | NoteOff _ note velocity =>
      Return (
        if decide (36 ≤ note ≤ 99)%Z then
          let pad_index := (note - 36)%Z in
          let row := (pad_index `div` 8 + 1)%Z in
          let col := (pad_index `mod` 8 + 1)%Z in
          timestamp ++ " | PAD: Row " ++ str row ++ ", Col " ++ str col
            ++ " (note " ++ str note ++ ") " ++ state ++ " vel:" ++ str velocity
        else
          timestamp ++ " | NOTE: " ++ str note ++ " " ++ state ++ " vel:" ++ str velocity)%string
  | _ => Raised AttributeError
  end.

(** [format_sysex_message(self, msg, timestamp)].  When the data are the
    five identification bytes and nothing more, [command] is the string
    ["??"], which the format [02X] refuses with a [ValueError]. *)
Definition format_sysex_message (msg : message) (timestamp : string) : outcome string :=
  match msg with
  | Sysex data =>
      if bool_decide (3 ≤ length data)%nat && bool_decide (take 3 data = MANUFACTURER_ID) then
        if bool_decide (5 ≤ length data)%nat
           && bool_decide (take 2 (drop 3 data) = DEVICE_ID) then
          match (if bool_decide (5 < length data)%nat then data !! 5%nat else None) with
          | Some command =>
              Return (timestamp ++ " | SYSEX: Push 3 command 0x" ++ format_02X command
                        ++ " (len: " ++ str (Z.of_nat (length data)) ++ ")")%string
          | None => Raised ValueError
          end
        else
          Return (timestamp ++ " | SYSEX: Ableton device (len: " ++ str (Z.of_nat (length data)) ++ ")")%string
      else
        Return (timestamp ++ " | SYSEX: Other manufacturer (len: "
                  ++ str (Z.of_nat (length data)) ++ ")")%string
  | _ => Raised AttributeError
  end.

End Monitor.

(** ** [midi_test.py]: [Push3MIDIController] *)

Module Controller.
Import Midi.

(** Method bodies thread the record of what was sent and stop at the
    first exception. *)
Definition MM (A : Type) : Type := list message → list message * outcome A.

Definition mret {A} (a : A) : MM A := λ sent, (sent, Return a).
Definition mraise {A} (e : error) : MM A := λ sent, (sent, Raised e).
Definition mbind {A B} (c : MM A) (k : A → MM B) : MM B :=
  λ sent, match c sent with
          | (sent', Return a) => k a sent'
          | (sent', Raised e) => (sent', Raised e)
          end.

(** [for x in xs: body] *)
Fixpoint for_each {A} (xs : list A) (body : A → MM unit) : MM unit :=
  match xs with
  | [] => mret tt
  | x :: xs' => mbind (body x) (λ _, for_each xs' body)
  end.

(** [class LEDColors] *)
Definition OFF : Z := 0.
Definition RED : Z := 5.
Definition ORANGE : Z := 9.
Definition YELLOW : Z := 13.
Definition GREEN : Z := 17.
Definition CYAN : Z := 33.
Definition BLUE : Z := 37.
Definition PURPLE : Z := 41.
Definition PINK : Z := 45.
Definition WHITE : Z := 119.

(** [TEST_BUTTONS], in the order of the literal, which is the order of
    [.values()]. *)
Definition TEST_BUTTONS : list (string * Z) :=
  [("play", 85); ("record", 86); ("stop", 29); ("solo", 61); ("mute", 60);
   ("shift", 49); ("select", 48)]%string.

Record Push3MIDIController : Type :=
  MkController { debug : bool; input_port : option port; output_port : option port }.

(** [__init__] *)
Definition init (debug : bool) : Push3MIDIController := MkController debug None None.

(** [self.output_port.send(msg)]: on [None] the attribute lookup fails. *)
Definition output_send (self : Push3MIDIController) (msg : message) : MM unit :=
  match output_port self with
  | Some p => send p msg
  | None => mraise AttributeError
  end.

(** Lifting the construction of a message. *)
Definition build (m : outcome message) : MM message :=
  match m with
  | Return msg => mret msg
  | Raised e => mraise e
  end.

(** [send_sysex(self, command, data=None)] *)
Definition send_sysex (self : Push3MIDIController) (command : Z) (data : option (list Z))
    : MM unit :=
  match output_port self with
  | None => mraise (RuntimeError "No output port available")
  | Some p =>
      let data := match data with None => [] | Some d => d end in
      let sysex_data := MANUFACTURER_ID ++ DEVICE_ID ++ [command] ++ data in
      mbind (build (Message_sysex sysex_data)) (λ msg, send p msg)
  end.

(** [set_button_led(self, button_cc, color, brightness=127)]; the
    brightness is not used. *)
Definition set_button_led (self : Push3MIDIController) (button_cc color : Z) : MM unit :=
  mbind (build (Message_control_change button_cc color 0)) (λ msg, output_send self msg).

(** [set_pad_led(self, pad_note, color, brightness=127)] *)
Definition set_pad_led (self : Push3MIDIController) (pad_note color : Z) : MM unit :=
  mbind (build (Message_note_on pad_note color 0)) (λ msg, output_send self msg).

(** [device_handshake(self)] *)
Definition device_handshake (self : Push3MIDIController) : MM unit :=
  let inquiry := [0x7E; 0x7F; 0x06; 0x01] in
  mbind (build (Message_sysex inquiry)) (λ msg,
  mbind (output_send self msg) (λ _,
  let user_mode := MANUFACTURER_ID ++ DEVICE_ID ++ [0x0A; 0x01] in
  mbind (build (Message_sysex user_mode)) (λ msg,
  output_send self msg))).

(** [colors[i]] on a Python list *)
Definition list_item (xs : list Z) (i : nat) : MM Z :=
  match xs !! i with
  | Some v => mret v
  | None => mraise IndexError
  end.

(** [test_button_leds(self)] *)
Definition test_button_leds (self : Push3MIDIController) : MM unit :=
  let colors := [RED; GREEN; BLUE; YELLOW; WHITE; PURPLE; ORANGE] in
  mbind (for_each (seqZ 0 128) (λ cc,
           mbind (list_item colors (Z.to_nat (cc `mod` Z.of_nat (length colors)))) (λ color,
           set_button_led self cc color))) (λ _,
  for_each (seqZ 0 128) (λ cc, set_button_led self cc OFF)).

(** [test_pad_leds(self)] *)
Definition test_pad_leds (self : Push3MIDIController) : MM unit :=
  let test_pads := seqZ 36 8 in
  let colors := [RED; ORANGE; YELLOW; GREEN; CYAN; BLUE; PURPLE; PINK] in
  mbind (for_each (zip test_pads colors) (λ '(pad, color), set_pad_led self pad color)) (λ _,
  for_each test_pads (λ pad, set_pad_led self pad OFF)).

(** [led_chase_demo(self)] *)
Definition led_chase_demo (self : Push3MIDIController) : MM unit :=
  mbind (for_each (TEST_BUTTONS.*2) (λ button_cc,
           mbind (set_button_led self button_cc GREEN) (λ _,
           set_button_led self button_cc OFF))) (λ _,
  for_each (seqZ 36 64) (λ pad_note,
    mbind (set_pad_led self pad_note BLUE) (λ _,
    set_pad_led self pad_note OFF))).

(** [all_leds_off(self)] *)
Definition all_leds_off (self : Push3MIDIController) : MM unit :=
  mbind (for_each (seqZ 0 128) (λ button_cc, set_button_led self button_cc OFF)) (λ _,
  for_each (seqZ 0 128) (λ pad_note, set_pad_led self pad_note OFF)).

End Controller.

(** ** Descriptions for the MIDI tools *)

(** What a port does with messages sent one after the other: the record
    and the exception that stopped them, if any. *)
Fixpoint deliver (p : Midi.port) (sent : list Midi.message) (msgs : list Midi.message)
    : list Midi.message * option Midi.error :=
  match msgs with
  | [] => (sent, None)
  | m :: msgs' =>
      match Midi.send_outcome p sent m with
      | None => deliver p (sent ++ [m]) msgs'
      | Some e => (sent ++ [m], Some e)
      end
  end.

(** The colour a button LED or a pad LED was last set to by the messages
    of a record, if any set it. *)
Fixpoint button_led (sent : list Midi.message) (cc : Z) : option Z :=
  match sent with
  | [] => None
  | m :: rest =>
      match button_led rest cc with
      | Some v => Some v
      | None =>
          match m with
          | Midi.ControlChange _ c v => if decide (c = cc) then Some v else None
          | _ => None
          end
      end
  end.

Fixpoint pad_led (sent : list Midi.message) (note : Z) : option Z :=
  match sent with
  | [] => None
  | m :: rest =>
      match pad_led rest note with
      | Some v => Some v
      | None =>
          match m with
          | Midi.NoteOn _ n v => if decide (n = note) then Some v else None
          | _ => None
          end
      end
  end.

(** A port that takes every message, and a connected controller on it. *)
Definition open_port : Midi.port := Midi.Port "Ableton Push 3 User Port" (λ _ _, None).

Definition connected_controller : Controller.Push3MIDIController :=
  Controller.MkController false None (Some open_port).

(** [emits c p ms]: on port [p], the method body [c] hands the messages
    [ms] to [send], in order, until one raises; it returns when none does
    and raises what [send] raised otherwise. *)
Definition emits (c : Controller.MM unit) (p : Midi.port) (ms : list Midi.message) : Prop :=
  ∀ sent, c sent = ((deliver p sent ms).1,
                    match (deliver p sent ms).2 with
                    | None => Midi.Return tt
                    | Some e => Midi.Raised e
                    end).

(** Every LED that the messages [ms] set is set to [OFF] last. *)
Definition leaves_dark (ms : list Midi.message) : Prop :=
  (∀ cc v, button_led ms cc = Some v → v = Controller.OFF)
  ∧ (∀ note v, pad_led ms note = Some v → v = Controller.OFF).

(** The same as a check on the messages themselves. *)
Definition leaves_darkb (ms : list Midi.message) : bool :=
  forallb (λ m, match m with
                | Midi.ControlChange _ c _ => bool_decide (button_led ms c = Some Controller.OFF)
                | Midi.NoteOn _ n _ => bool_decide (pad_led ms n = Some Controller.OFF)
                | _ => true
                end) ms.

Local Arguments Nat.modulo : simpl never.
Local Arguments Nat.div : simpl never.

(** * Properties *)

(** ** The monad *)

Lemma bind_ok {A B} (c : M A) (k : A → M B) w w' a :
  c w = (w', Ok a) → bind c k w = k a w'.
Proof. intros H. unfold bind. by rewrite H. Qed.

Lemma bind_raise {A B} (c : M A) (k : A → M B) w w' e :
  c w = (w', Raise e) → bind c k w = (w', Raise e).
Proof. intros H. unfold bind. by rewrite H. Qed.

Lemma load_ok l o w : heap w !! l = Some o → load l w = (w, Ok o).
Proof. intros H. unfold load. by rewrite H. Qed.

Lemma bytearray_of_run data o w :
  heap w !! data = Some o →
  bytearray_of data w =
    (World (<[fresh (dom (heap w)) := ByteArray (contents o)]> (heap w)) (usb_log w),
     Ok (fresh (dom (heap w)))).
Proof. intros H. unfold bytearray_of. by rewrite (bind_ok _ _ _ _ _ (load_ok _ _ _ H)). Qed.

Lemma bytes_of_run data o w :
  heap w !! data = Some o →
  bytes_of data w =
    (World (<[fresh (dom (heap w)) := Bytes (contents o)]> (heap w)) (usb_log w),
     Ok (fresh (dom (heap w)))).
Proof. intros H. unfold bytes_of. by rewrite (bind_ok _ _ _ _ _ (load_ok _ _ _ H)). Qed.

Lemma len_run buf o w :
  heap w !! buf = Some o → len buf w = (w, Ok (length (contents o))).
Proof. intros H. unfold len. by rewrite (bind_ok _ _ _ _ _ (load_ok _ _ _ H)). Qed.

Lemma getslice_run buf o i j w :
  heap w !! buf = Some o → getslice buf i j w = (w, Ok (slice (contents o) i j)).
Proof. intros H. unfold getslice. by rewrite (bind_ok _ _ _ _ _ (load_ok _ _ _ H)). Qed.

(** A freshly allocated reference is not one of the store's. *)
Lemma fresh_lookup (h : gmap loc buffer) : h !! fresh (dom h) = None.
Proof. apply not_elem_of_dom, is_fresh. Qed.

(** ** Bytes and XOR *)

Lemma is_byteb_spec v : is_byteb v = true ↔ is_byte v.
Proof. unfold is_byteb, is_byte. rewrite andb_true_iff, Z.leb_le, Z.ltb_lt. tauto. Qed.

Lemma lxor_byte a k : is_byte a → is_byte k → is_byte (Z.lxor a k).
Proof.
  unfold is_byte. intros [Ha Ha'] [Hk Hk']. split.
  - apply Z.lxor_nonneg. tauto.
  - destruct (decide (Z.lxor a k = 0)) as [->|Hne]; [lia|].
    assert (0 ≤ Z.lxor a k) by (apply Z.lxor_nonneg; tauto).
    change 256 with (2 ^ 8). apply Z.log2_lt_pow2; [lia|].
    eapply Z.le_lt_trans; [apply Z.log2_lxor; lia|].
    apply Z.max_lub_lt.
    + destruct (decide (a = 0)) as [->|]; [done|]. apply Z.log2_lt_pow2; lia.
    + destruct (decide (k = 0)) as [->|]; [done|]. apply Z.log2_lt_pow2; lia.
Qed.

Lemma lxor_cancel a k : Z.lxor (Z.lxor a k) k = a.
Proof. by rewrite Z.lxor_assoc, Z.lxor_nilpotent, Z.lxor_0_r. Qed.


Lemma xor_from_length pattern k : ∀ a c, length (xor_from pattern a k c) = length c.
Proof.
  induction k as [|k IH]; intros a c; simpl; [done|].
  by rewrite IH, length_insert.
Qed.

Lemma xor_from_lookup pattern k : ∀ a c j,
  (a + k ≤ length c)%nat →
  xor_from pattern a k c !! j =
    if decide (a ≤ j < a + k)%nat
    then (λ v, Z.lxor v (pattern !!! (j `mod` 4)%nat)) <$> c !! j
    else c !! j.
Proof.
  induction k as [|k IH]; intros a c j Hlen; simpl.
  - case_decide; [lia|done].
  - rewrite IH by (rewrite length_insert; lia).
    destruct (decide (j = a)) as [->|Hne].
    + rewrite list_lookup_insert_eq by lia.
      destruct (lookup_lt_is_Some_2 c a) as [v Hv]; [lia|].
      rewrite (list_lookup_total_correct _ _ _ Hv), Hv.
      repeat case_decide; try lia; done.
    + rewrite list_lookup_insert_ne by done.
      repeat case_decide; try lia; done.
Qed.

Lemma xor_from_all pattern c :
  xor_from pattern 0 (length c) c = xor_bytes pattern c.
Proof.
  apply list_eq. intros j. rewrite xor_from_lookup by lia.
  unfold xor_bytes. rewrite list_lookup_imap.
  destruct (c !! j) as [v|] eqn:Hj; simpl.
  - apply lookup_lt_Some in Hj. case_decide; [done|lia].
  - by case_decide.
Qed.

Lemma xor_bytes_length pattern b : length (xor_bytes pattern b) = length b.
Proof. unfold xor_bytes. by rewrite length_imap. Qed.

Lemma xor_bytes_lookup pattern b i :
  xor_bytes pattern b !! i = (λ v, Z.lxor v (pattern !!! (i `mod` 4)%nat)) <$> b !! i.
Proof. unfold xor_bytes. by rewrite list_lookup_imap. Qed.

Lemma xor_bytes_involutive pattern b : xor_bytes pattern (xor_bytes pattern b) = b.
Proof.
  apply list_eq. intros i. rewrite !xor_bytes_lookup.
  destruct (b !! i); simpl; [|done]. by rewrite lxor_cancel.
Qed.

Lemma is_bytes_lookup_total (p : list Z) i :
  is_bytes p → (i < length p)%nat → is_byte (p !!! i).
Proof.
  intros Hp Hi. destruct (lookup_lt_is_Some_2 p i Hi) as [v Hv].
  rewrite (list_lookup_total_correct _ _ _ Hv).
  by eapply (Forall_lookup_1 _ _ _ _ Hp).
Qed.

Lemma xor_bytes_is_bytes pattern b :
  length pattern = 4%nat → is_bytes pattern → is_bytes b → is_bytes (xor_bytes pattern b).
Proof.
  intros Hlen Hp Hb. apply Forall_lookup_2. intros i v.
  rewrite xor_bytes_lookup. destruct (b !! i) as [u|] eqn:Hu; simpl; [|done].
  intros [= <-]. apply lxor_byte.
  - by eapply (Forall_lookup_1 _ _ _ _ Hb).
  - apply is_bytes_lookup_total; [done|]. rewrite Hlen. apply Nat.mod_upper_bound. lia.
Qed.

(** ** [encrypt_framebuffer] on the store *)

Section xor_pass.
Variable pattern : list Z.
Hypothesis pattern_length : length pattern = 4%nat.
Hypothesis pattern_bytes : is_bytes pattern.

Lemma xor_item_run l a c w :
  heap w !! l = Some (ByteArray c) → is_bytes c → (a < length c)%nat →
  xor_item pattern l a w =
    (World (<[l := ByteArray (<[a := Z.lxor (c !!! a) (pattern !!! (a `mod` 4)%nat)]> c)]>
              (heap w)) (usb_log w), Ok tt).
Proof.
  intros Hl Hc Ha. unfold xor_item, getitem, list_getitem, setitem.
  assert (Hm : (a `mod` 4 < 4)%nat) by (apply Nat.mod_upper_bound; lia).
  destruct (lookup_lt_is_Some_2 c a Ha) as [v Hv].
  destruct (lookup_lt_is_Some_2 pattern (a `mod` 4)%nat) as [k Hk]; [lia|].
  rewrite (list_lookup_total_correct _ _ _ Hv), (list_lookup_total_correct _ _ _ Hk).
  assert (Hb : is_byteb (Z.lxor v k) = true).
  { apply is_byteb_spec, lxor_byte.
    - by eapply (Forall_lookup_1 _ _ _ _ Hc).
    - by eapply (Forall_lookup_1 _ _ _ _ pattern_bytes). }
  unfold bind, load, ret. rewrite Hl. simpl. rewrite Hv, Hk, Hl.
  rewrite decide_True by done. by rewrite Hb.
Qed.

Lemma xor_loop_run l k : ∀ a c w,
  heap w !! l = Some (ByteArray c) → is_bytes c → (a + k ≤ length c)%nat →
  for_each (seq a k) (xor_item pattern l) w =
    (World (<[l := ByteArray (xor_from pattern a k c)]> (heap w)) (usb_log w), Ok tt).
Proof.
  induction k as [|k IH]; intros a c w Hl Hc Hk.
  - simpl. unfold for_each, ret. simpl. destruct w as [h u]. simpl in *.
    by rewrite insert_id.
  - unfold for_each in *. simpl.
    erewrite bind_ok by (apply xor_item_run; [done..|lia]).
    rewrite (IH (S a) (<[a := Z.lxor (c !!! a) (pattern !!! (a `mod` 4)%nat)]> c)); simpl.
    + by rewrite insert_insert_eq.
    + by rewrite lookup_insert_eq.
    + apply Forall_insert; [done|]. apply lxor_byte.
      * apply is_bytes_lookup_total; [done|lia].
      * apply is_bytes_lookup_total; [done|]. rewrite pattern_length.
        apply Nat.mod_upper_bound. lia.
    + rewrite length_insert. lia.
Qed.

(** The whole pass: two objects are allocated, the working bytearray and
    the [bytes] returned; nothing else in the store changes and no call
    reaches the endpoint. *)
Lemma encrypt_with_run data o w :
  heap w !! data = Some o → is_bytes (contents o) →
  let l1 := fresh (dom (heap w)) in
  let h1 := <[l1 := ByteArray (xor_bytes pattern (contents o))]> (heap w) in
  let l2 := fresh (dom h1) in
  encrypt_with pattern data w =
    (World (<[l2 := Bytes (xor_bytes pattern (contents o))]> h1) (usb_log w), Ok l2).
Proof.
  intros Hd Hb l1 h1 l2. unfold encrypt_with.
  erewrite bind_ok by (by apply bytearray_of_run). fold l1.
  erewrite bind_ok by (apply len_run; simpl; apply lookup_insert_eq).
  erewrite bind_ok
    by (apply xor_loop_run; simpl; [apply lookup_insert_eq|done|simpl; lia]).
  simpl. rewrite xor_from_all, insert_insert_eq. fold h1.
  erewrite bytes_of_run by (simpl; apply lookup_insert_eq). done.
Qed.
End xor_pass.

(** ** Chunks of a payload *)

Section chunking.
Variable chunk_size : nat.
Hypothesis chunk_size_pos : (0 < chunk_size)%nat.

Lemma chunk_count_bounds n :
  ((chunk_count chunk_size n - 1) * chunk_size < n ∨ n = 0)%nat
  ∧ (n ≤ chunk_count chunk_size n * chunk_size)%nat.
Proof.
  unfold chunk_count.
  pose proof (Nat.div_mod (n + (chunk_size - 1)) chunk_size ltac:(lia)) as Hdm.
  pose proof (Nat.mod_upper_bound (n + (chunk_size - 1)) chunk_size ltac:(lia)) as Hm.
  nia.
Qed.

Lemma chunk_count_0 : chunk_count chunk_size 0 = 0%nat.
Proof. unfold chunk_count. apply Nat.div_small. lia. Qed.

Lemma chunk_count_pos n : (0 < n)%nat → (0 < chunk_count chunk_size n)%nat.
Proof. intros Hn. pose proof (chunk_count_bounds n). nia. Qed.

Lemma chunks_length (p : list Z) :
  length (chunks chunk_size p) = chunk_count chunk_size (length p).
Proof. unfold chunks. by rewrite length_fmap, length_seq. Qed.

Lemma chunks_lookup (p : list Z) k :
  (k < chunk_count chunk_size (length p))%nat →
  chunks chunk_size p !! k = Some (take chunk_size (drop (k * chunk_size) p)).
Proof.
  intros Hk. unfold chunks. rewrite list_lookup_fmap, lookup_seq_lt by done. done.
Qed.

Lemma concat_chunks_prefix (p : list Z) m :
  concat ((λ j, take chunk_size (drop (j * chunk_size) p)) <$> seq 0 m)
  = take (m * chunk_size) p.
Proof.
  induction m as [|m IH]; [done|].
  rewrite seq_S, fmap_app, concat_app, IH. simpl. rewrite app_nil_r.
  rewrite take_take_drop. f_equal. lia.
Qed.

Lemma concat_chunks (p : list Z) : concat (chunks chunk_size p) = p.
Proof.
  unfold chunks. rewrite concat_chunks_prefix. apply take_ge.
  pose proof (chunk_count_bounds (length p)). lia.
Qed.

(** Every chunk but the last is full; the last holds what is left. *)
Lemma chunk_length_full (p : list Z) k c :
  chunks chunk_size p !! k = Some c →
  (S k < chunk_count chunk_size (length p))%nat →
  length c = chunk_size.
Proof.
  intros Hc Hk. rewrite chunks_lookup in Hc by lia. injection Hc as <-.
  rewrite length_take, length_drop.
  pose proof (chunk_count_bounds (length p)) as [[H1|H0] _].
  - assert (S k * chunk_size ≤ (chunk_count chunk_size (length p) - 1) * chunk_size)%nat
      by (apply Nat.mul_le_mono_r; lia).
    lia.
  - rewrite H0, chunk_count_0 in Hk. lia.
Qed.

Lemma chunk_length_last (p : list Z) k c :
  chunks chunk_size p !! k = Some c →
  S k = chunk_count chunk_size (length p) →
  length c = (length p - k * chunk_size)%nat ∧ (0 < length c ≤ chunk_size)%nat.
Proof.
  intros Hc Hk. rewrite chunks_lookup in Hc by lia. injection Hc as <-.
  rewrite length_take, length_drop.
  pose proof (chunk_count_bounds (length p)) as [H1 H2].
  rewrite <- Hk in H1, H2. replace (S k - 1)%nat with k in H1 by lia.
  rewrite Nat.mul_succ_l in H2.
  destruct H1 as [H1|H0]; [lia|].
  rewrite H0, chunk_count_0 in Hk. lia.
Qed.

Lemma last_chunk_remainder n k :
  S k = chunk_count chunk_size n →
  (n - k * chunk_size)%nat =
    if decide (n `mod` chunk_size = 0)%nat then chunk_size else (n `mod` chunk_size)%nat.
Proof.
  intros Hk. pose proof (chunk_count_bounds n) as [H1 H2].
  rewrite <- Hk in H1, H2. replace (S k - 1)%nat with k in H1 by lia.
  rewrite Nat.mul_succ_l in H2.
  destruct H1 as [H1|H0]; [|rewrite H0, chunk_count_0 in Hk; lia].
  pose proof (Nat.div_mod n chunk_size ltac:(lia)) as Hdm.
  pose proof (Nat.mod_upper_bound n chunk_size ltac:(lia)) as Hm.
  set (q := (n `div` chunk_size)%nat) in *. set (r := (n `mod` chunk_size)%nat) in *.
  rewrite (Nat.mul_comm chunk_size q) in Hdm.
  case_decide as Hz.
  - assert (q = S k) as -> by nia. lia.
  - assert (q = k) as -> by nia. lia.
Qed.

Lemma chunk_length_bounds (p : list Z) c :
  c ∈ chunks chunk_size p → (0 < length c ≤ chunk_size)%nat.
Proof.
  intros [k Hk]%list_elem_of_lookup.
  pose proof (lookup_lt_Some _ _ _ Hk) as Hlt. rewrite chunks_length in Hlt.
  destruct (decide (S k = chunk_count chunk_size (length p))) as [Hlast|Hmid].
  - by destruct (chunk_length_last p k c Hk Hlast).
  - rewrite (chunk_length_full p k c Hk); lia.
Qed.

(** The slices the loop of [send_frame] takes at the offsets of [range]
    are these chunks. *)
Lemma slices_at_range (p : list Z) :
  (λ i, slice p i (i + chunk_size))
    <$> ((λ j, 0 + j * chunk_size)%nat
           <$> seq 0 ((length p - 0 + (chunk_size - 1)) `div` chunk_size))
  = chunks chunk_size p.
Proof.
  unfold chunks, chunk_count. rewrite Nat.sub_0_r, <- list_fmap_compose.
  apply list_fmap_ext. intros _ j _. simpl. unfold slice. do 2 f_equal; lia.
Qed.
End chunking.

(** ** Sequences of writes *)

Lemma transmit_ok dev calls : ∀ log,
  (∀ j c, calls !! j = Some c →
     write_outcome dev (log ++ take j calls) (call_endpoint c) (call_data c) = None) →
  transmit dev log calls = (log ++ calls, None).
Proof.
  induction calls as [|c calls IH]; intros log Hok; simpl.
  - by rewrite app_nil_r.
  - pose proof (Hok 0%nat c eq_refl) as H0. simpl in H0. rewrite app_nil_r in H0.
    rewrite H0, IH.
    + by rewrite <- app_assoc.
    + intros j c' Hj. rewrite <- app_assoc. apply (Hok (S j) c' Hj).
Qed.

Lemma transmit_fails dev calls : ∀ log k c e,
  (∀ j c', (j < k)%nat → calls !! j = Some c' →
     write_outcome dev (log ++ take j calls) (call_endpoint c') (call_data c') = None) →
  calls !! k = Some c →
  write_outcome dev (log ++ take k calls) (call_endpoint c) (call_data c) = Some e →
  transmit dev log calls = (log ++ take (S k) calls, Some e).
Proof.
  induction calls as [|c0 calls IH]; intros log k c e Hok Hk He; [done|].
  destruct k as [|k]; simpl in *.
  - injection Hk as ->. rewrite app_nil_r in He. by rewrite He, take_0.
  - pose proof (Hok 0%nat c0 ltac:(lia) eq_refl) as H0. simpl in H0.
    rewrite app_nil_r in H0. rewrite H0.
    rewrite (IH (log ++ [c0]) k c e).
    + by rewrite <- app_assoc.
    + intros j c' Hj Hc'. rewrite <- app_assoc. apply (Hok (S j) c'); [lia|done].
    + done.
    + by rewrite <- app_assoc.
Qed.

(** Whatever the device does, the calls attempted are a prefix of the calls
    asked for; the prefix is the whole sequence exactly when nothing was
    raised, and it ends with the call that raised otherwise. *)
Lemma transmit_prefix dev calls : ∀ log,
  ∃ m, (m ≤ length calls)%nat
       ∧ (transmit dev log calls).1 = log ++ take m calls
       ∧ match (transmit dev log calls).2 with
         | None => m = length calls
         | Some e => ∃ k c, m = S k ∧ calls !! k = Some c
              ∧ write_outcome dev (log ++ take k calls) (call_endpoint c) (call_data c) = Some e
         end.
Proof.
  induction calls as [|c calls IH]; intros log; simpl.
  - exists 0%nat. by rewrite app_nil_r.
  - destruct (write_outcome dev log (call_endpoint c) (call_data c)) as [e|] eqn:He; simpl.
    + exists 1%nat. split; [lia|]. split; [simpl; by rewrite take_0|].
      exists 0%nat, c. simpl. by rewrite app_nil_r.
    + destruct (IH (log ++ [c])) as (m & Hm & Hlog & Herr).
      exists (S m). split; [lia|]. split; [simpl; by rewrite Hlog, <- app_assoc|].
      destruct (transmit dev (log ++ [c]) calls).2 as [e|]; [|lia].
      destruct Herr as (k & c' & -> & Hk & Hw).
      exists (S k), c'. split; [done|]. split; [done|].
      simpl. by rewrite <- app_assoc in Hw.
Qed.

(** ** [send_frame] on the store *)

Lemma usb_write_run dev ep data w :
  usb_write dev ep data w =
    (World (heap w) (usb_log w ++ [UsbCall ep data]),
     match write_outcome dev (usb_log w) ep data with
     | None => Ok (Z.of_nat (length data))
     | Some e => Raise e
     end).
Proof. unfold usb_write. by destruct (write_outcome dev (usb_log w) ep data). Qed.

(** The chunk loop writes the slices it takes, one after the other, until
    one write raises. *)
Lemma chunk_loop_run dev chunk_size l o offs : ∀ s w,
  heap w !! l = Some o →
  let cs := (λ i, slice (contents o) i (i + chunk_size)) <$> offs in
  let tr := transmit dev (usb_log w) (UsbCall 0x01 <$> cs) in
  for_fold offs s (send_chunk dev chunk_size l) w =
    (World (heap w) tr.1,
     match tr.2 with
     | None => Ok (s + length (concat cs))%nat
     | Some e => Raise e
     end).
Proof.
  induction offs as [|i offs IH]; intros s w Hl; simpl.
  - unfold ret. destruct w; simpl. by rewrite Nat.add_0_r.
  - unfold send_chunk, bind. rewrite (getslice_run _ _ _ _ _ Hl), usb_write_run.
    destruct (write_outcome dev (usb_log w) 1 _) as [e|] eqn:He; simpl; [done|].
    rewrite IH by done. simpl.
    destruct (transmit _ _ _).2; [done|].
    f_equal. f_equal. rewrite length_app. symmetry. apply Nat.add_assoc.
Qed.

Lemma py_range_run start stop step w :
  (0 < step)%nat →
  py_range start stop step w =
    (w, Ok ((λ j, start + j * step)%nat
              <$> seq 0 ((stop - start + (step - 1)) `div` step))).
Proof. intros Hs. unfold py_range. by rewrite decide_False by lia. Qed.

(** One run of [send_frame] on a connected object, for well-formed input:
    the header write decides whether anything else happens; after it the
    store holds the two objects of the XOR pass and the endpoint has seen
    the chunks up to the first write that raised. *)
Lemma send_frame_with_run pattern chunk_size dev dbg fb o w :
  length pattern = 4%nat → is_bytes pattern → (0 < chunk_size)%nat →
  heap w !! fb = Some o → is_bytes (contents o) →
  let x := xor_bytes pattern (contents o) in
  let hdr := UsbCall 0x01 FRAME_HEADER in
  send_frame_with pattern chunk_size (Display (Some dev) dbg) fb w =
    match write_outcome dev (usb_log w) 0x01 FRAME_HEADER with
    | Some e => (World (heap w) (usb_log w ++ [hdr]), Raise e)
    | None =>
        let l1 := fresh (dom (heap w)) in
        let h1 := <[l1 := ByteArray x]> (heap w) in
        let l2 := fresh (dom h1) in
        let tr := transmit dev (usb_log w ++ [hdr]) (UsbCall 0x01 <$> chunks chunk_size x) in
        (World (<[l2 := Bytes x]> h1) tr.1,
         match tr.2 with None => Ok tt | Some e => Raise e end)
    end.
Proof.
  intros Hlen Hpat Hcs Hfb Hb x hdr. unfold send_frame_with. simpl.
  unfold bind at 1. rewrite usb_write_run.
  destruct (write_outcome dev (usb_log w) 1 FRAME_HEADER) as [e|]; [done|].
  erewrite bind_ok by (by eapply encrypt_with_run).
  erewrite bind_ok by (apply len_run; simpl; apply lookup_insert_eq).
  erewrite bind_ok by (by apply py_range_run).
  unfold bind, chunk_loop.
  erewrite chunk_loop_run by (simpl; apply lookup_insert_eq).
  simpl. fold x. rewrite <- (slices_at_range chunk_size Hcs x).
  by destruct (transmit _ _ _).2.
Qed.

(** The same run seen from the endpoint: the calls recorded and the outcome
    are those of transmitting [frame_calls]. *)
Lemma send_frame_with_calls pattern chunk_size dev dbg fb o w :
  length pattern = 4%nat → is_bytes pattern → (0 < chunk_size)%nat →
  heap w !! fb = Some o → is_bytes (contents o) →
  let run := send_frame_with pattern chunk_size (Display (Some dev) dbg) fb w in
  let tr := transmit dev (usb_log w) (frame_calls pattern chunk_size (contents o)) in
  usb_log run.1 = tr.1
  ∧ run.2 = match tr.2 with None => Ok tt | Some e => Raise e end.
Proof.
  intros Hlen Hpat Hcs Hfb Hb. simpl.
  rewrite (send_frame_with_run pattern chunk_size dev dbg fb o w) by done.
  unfold frame_calls. simpl.
  by destruct (write_outcome dev (usb_log w) 1 FRAME_HEADER).
Qed.

(** ** What a method leaves untouched *)

Section frame.
Variable h0 : gmap loc buffer.

Lemma keeps_ret {A} (a : A) : keeps h0 (ret a).
Proof. by intros w Hw. Qed.

Lemma keeps_raise {A} e : keeps h0 (raise (A := A) e).
Proof. by intros w Hw. Qed.

Lemma keeps_bind {A B} (c : M A) (k : A → M B) :
  keeps h0 c → (∀ a, keeps h0 (k a)) → keeps h0 (bind c k).
Proof.
  intros Hc Hk w Hw. unfold bind. specialize (Hc w Hw).
  destruct (c w) as [w' [a|e]]; simpl in *; [by apply Hk|done].
Qed.

(** The same when the continuation needs to know something about the
    value [c] returned. *)
Lemma keeps_bind_post {A B} (Q : A → Prop) (c : M A) (k : A → M B) :
  (∀ w, h0 ⊆ heap w → h0 ⊆ heap (c w).1 ∧ ∀ a, (c w).2 = Ok a → Q a) →
  (∀ a, Q a → keeps h0 (k a)) → keeps h0 (bind c k).
Proof.
  intros Hc Hk w Hw. unfold bind. destruct (Hc w Hw) as [Hh HQ].
  destruct (c w) as [w' [a|e]]; simpl in *; [|done]. apply Hk; [|done]. by apply HQ.
Qed.

Lemma keeps_for_fold {A S} (xs : list A) (body : A → S → M S) :
  (∀ x s, keeps h0 (body x s)) → ∀ s, keeps h0 (for_fold xs s body).
Proof.
  intros Hbody. induction xs as [|x xs IH]; intros s; simpl.
  - apply keeps_ret.
  - apply keeps_bind; [apply Hbody|apply IH].
Qed.

Lemma keeps_load l : keeps h0 (load l).
Proof. intros w Hw. unfold load. by destruct (heap w !! l). Qed.

Lemma alloc_fresh o w :
  h0 ⊆ heap w →
  h0 ⊆ heap (alloc o w).1 ∧ ∀ l, (alloc o w).2 = Ok l → h0 !! l = None.
Proof.
  intros Hw. assert (Hf : h0 !! fresh (dom (heap w)) = None)
    by (eapply lookup_weaken_None; [apply fresh_lookup|done]).
  unfold alloc. simpl. split.
  - by apply insert_subseteq_r.
  - by intros l [= <-].
Qed.

Lemma keeps_alloc o : keeps h0 (alloc o).
Proof. intros w Hw. by apply alloc_fresh. Qed.

Lemma keeps_setitem l i v : h0 !! l = None → keeps h0 (setitem l i v).
Proof.
  intros Hl. unfold setitem. apply keeps_bind; [apply keeps_load|].
  intros [c|c]; [apply keeps_raise|].
  case_decide; [|apply keeps_raise].
  destruct (is_byteb v); [|apply keeps_raise].
  intros w Hw. simpl. by apply insert_subseteq_r.
Qed.

Lemma keeps_getitem l i : keeps h0 (getitem l i).
Proof.
  unfold getitem. apply keeps_bind; [apply keeps_load|].
  intros o. destruct (contents o !! i); [apply keeps_ret|apply keeps_raise].
Qed.

Lemma keeps_usb_write dev ep data : keeps h0 (usb_write dev ep data).
Proof.
  intros w Hw. unfold usb_write. by destruct (write_outcome dev (usb_log w) ep data).
Qed.

Lemma keeps_xor_item pattern l i : h0 !! l = None → keeps h0 (xor_item pattern l i).
Proof.
  intros Hl. unfold xor_item. apply keeps_bind; [apply keeps_getitem|]. intros v.
  apply keeps_bind.
  - unfold list_getitem. destruct (pattern !! _); [apply keeps_ret|apply keeps_raise].
  - intros k. by apply keeps_setitem.
Qed.

Lemma keeps_encrypt_with pattern data : keeps h0 (encrypt_with pattern data).
Proof.
  unfold encrypt_with.
  apply (keeps_bind_post (λ l, h0 !! l = None)).
  { intros w Hw. unfold bytearray_of, bind, load.
    destruct (heap w !! data) as [o|]; [by apply alloc_fresh|done]. }
  intros l Hl. apply keeps_bind.
  { unfold len. apply keeps_bind; [apply keeps_load|]. intros o. apply keeps_ret. }
  intros n. apply keeps_bind.
  { unfold for_each. apply keeps_for_fold. intros i _. by apply keeps_xor_item. }
  intros _. unfold bytes_of. apply keeps_bind; [apply keeps_load|].
  intros o. apply keeps_alloc.
Qed.

Lemma keeps_send_frame_with pattern chunk_size self fb :
  keeps h0 (send_frame_with pattern chunk_size self fb).
Proof.
  unfold send_frame_with. destruct (device self) as [dev|]; [|apply keeps_raise].
  apply keeps_bind; [apply keeps_usb_write|]. intros _.
  apply keeps_bind; [apply keeps_encrypt_with|]. intros l.
  apply keeps_bind.
  { unfold len. apply keeps_bind; [apply keeps_load|]. intros o. apply keeps_ret. }
  intros n. apply keeps_bind.
  { unfold py_range. case_decide; [apply keeps_raise|apply keeps_ret]. }
  intros offs. apply keeps_bind; [|intros _; apply keeps_ret].
  unfold chunk_loop. apply keeps_for_fold. intros i s. unfold send_chunk.
  apply keeps_bind.
  { unfold getslice. apply keeps_bind; [apply keeps_load|]. intros o. apply keeps_ret. }
  intros chunk. apply keeps_bind; [apply keeps_usb_write|]. intros _. apply keeps_ret.
Qed.
End frame.

(** ** The pixel codec *)

Lemma land_ones_range x n : 0 ≤ n → 0 ≤ Z.land x (Z.ones n) < 2 ^ n.
Proof. intros Hn. rewrite Z.land_ones by done. apply Z.mod_pos_bound. lia. Qed.

Lemma land_ones_small x n : 0 ≤ n → 0 ≤ x < 2 ^ n → Z.land x (Z.ones n) = x.
Proof. intros Hn Hx. rewrite Z.land_ones by done. by apply Z.mod_small. Qed.

Lemma lor_lt_pow2 a b n : 0 ≤ a < 2 ^ n → 0 ≤ b < 2 ^ n → 0 ≤ Z.lor a b < 2 ^ n.
Proof.
  intros [Ha Ha'] [Hb Hb']. assert (Hab : 0 ≤ Z.lor a b) by (apply Z.lor_nonneg; tauto).
  split; [done|].
  destruct (decide (Z.lor a b = 0)) as [->|Hne]; [lia|].
  assert (Hn : 0 < n).
  { destruct (decide (0 < n)) as [|Hn]; [done|].
    assert (2 ^ n ≤ 1).
    { destruct (decide (n = 0)) as [->|]; [done|]. rewrite Z.pow_neg_r by lia. lia. }
    assert (a = 0) as -> by lia. assert (b = 0) as -> by lia. done. }
  apply Z.log2_lt_pow2; [lia|]. rewrite Z.log2_lor by done.
  apply Z.max_lub_lt.
  - destruct (decide (a = 0)) as [->|]; [done|]. apply Z.log2_lt_pow2; lia.
  - destruct (decide (b = 0)) as [->|]; [done|]. apply Z.log2_lt_pow2; lia.
Qed.

Lemma field5_range v : 0 ≤ field5 v < 32.
Proof. apply (land_ones_range (v ≫ 3) 5). lia. Qed.

Lemma field6_range v : 0 ≤ field6 v < 64.
Proof. apply (land_ones_range (v ≫ 2) 6). lia. Qed.

Section codec.
Variables r g b : Z.

Lemma rgb565_fields :
  rgb888_to_rgb565 r g b = Z.lor (Z.lor (field5 r ≪ 11) (field6 g ≪ 5)) (field5 b).
Proof. reflexivity. Qed.

Lemma rgb565_range : 0 ≤ rgb888_to_rgb565 r g b ≤ 0xFFFF.
Proof.
  pose proof (field5_range r). pose proof (field6_range g). pose proof (field5_range b).
  rewrite rgb565_fields.
  enough (0 ≤ Z.lor (Z.lor (field5 r ≪ 11) (field6 g ≪ 5)) (field5 b) < 2 ^ 16) by lia.
  repeat apply lor_lt_pow2; rewrite ?Z.shiftl_mul_pow2 by lia; lia.
Qed.

Lemma rgb565_red : rgb888_to_rgb565 r g b ≫ 11 = field5 r.
Proof.
  pose proof (field6_range g). pose proof (field5_range b).
  rewrite rgb565_fields, !Z.shiftr_lor.
  rewrite Z.shiftr_shiftl_l, Z.shiftr_shiftl_r by lia. simpl Z.sub.
  rewrite Z.shiftl_0_r, !Z.shiftr_div_pow2 by lia.
  rewrite !Z.div_small by lia. by rewrite !Z.lor_0_r.
Qed.

Lemma rgb565_green : Z.land (rgb888_to_rgb565 r g b ≫ 5) 0x3F = field6 g.
Proof.
  pose proof (field5_range r). pose proof (field6_range g). pose proof (field5_range b).
  rewrite rgb565_fields, !Z.shiftr_lor, !Z.land_lor_distr_l.
  rewrite !Z.shiftr_shiftl_l by lia. simpl Z.sub. rewrite Z.shiftl_0_r.
  change 63 with (Z.ones 6). rewrite !Z.land_ones by lia.
  rewrite Z.shiftl_mul_pow2, Z.shiftr_div_pow2 by lia.
  rewrite Z.mod_mul by lia. rewrite (Z.div_small (field5 b)) by lia.
  rewrite (Z.mod_small (field6 g)) by lia. by rewrite Z.lor_0_l, Z.lor_0_r.
Qed.

Lemma rgb565_blue : Z.land (rgb888_to_rgb565 r g b) 0x1F = field5 b.
Proof.
  pose proof (field5_range b).
  rewrite rgb565_fields, !Z.land_lor_distr_l.
  change 31 with (Z.ones 5). rewrite !Z.land_ones by lia.
  rewrite !Z.shiftl_mul_pow2 by lia.
  change (2 ^ 11) with (2 ^ 6 * 2 ^ 5). rewrite Z.mul_assoc, !Z.mod_mul by lia.
  rewrite (Z.mod_small (field5 b)) by lia. by rewrite !Z.lor_0_l.
Qed.
End codec.

(** On a byte the masks of the codec are idle: the field is the shifted
    channel itself. *)
Lemma byte_shift_mask v k n :
  is_byte v → 0 ≤ k → 0 ≤ n → 256 ≤ 2 ^ (k + n) → Z.land (v ≫ k) (Z.ones n) = v ≫ k.
Proof.
  intros [Hv Hv'] Hk Hn Hkn. apply land_ones_small; [done|].
  rewrite Z.shiftr_div_pow2 by done. split; [apply Z.div_pos; lia|].
  apply Z.div_lt_upper_bound; [lia|]. rewrite <- Z.pow_add_r by done. lia.
Qed.

(** ** The framebuffer loops *)

Lemma struct_pack_H_run v w :
  0 ≤ v ≤ 0xFFFF → struct_pack_H v w = (w, Ok (le16 v)).
Proof.
  intros Hv. unfold struct_pack_H.
  replace ((0 <=? v) && (v <=? 65535)) with true; [done|].
  symmetry. apply andb_true_iff. rewrite Z.leb_le, Z.leb_le. lia.
Qed.

Lemma getpixel_run {P} (img : image P) x y w :
  (x < (im_size img).1)%nat → (y < (im_size img).2)%nat →
  getpixel img x y w = (w, Ok (im_pixel img x y)).
Proof. intros Hx Hy. unfold getpixel. by rewrite decide_True by done. Qed.

Section framebuffer.
Variable img : image rgb_pixel.
Variables width height padding : nat.
Hypothesis img_width : (width ≤ (im_size img).1)%nat.
Hypothesis img_height : (height ≤ (im_size img).2)%nat.

Lemma line_body_run x y line_data w :
  (x < width)%nat → (y < height)%nat →
  (let! '(r, g, b) := getpixel img x y in
   let rgb565 := rgb888_to_rgb565 r g b in
   let! packed := struct_pack_H rgb565 in
   ret (line_data ++ packed)) w
  = (w, Ok (line_data ++ le16 (packed_pixel img x y))).
Proof.
  intros Hx Hy. erewrite bind_ok by (apply getpixel_run; lia).
  unfold packed_pixel. destruct (im_pixel img x y) as [[r g] b].
  erewrite bind_ok by (apply struct_pack_H_run, rgb565_range). done.
Qed.

Lemma line_fold_run y k : ∀ a line_data w,
  (a + k ≤ width)%nat → (y < height)%nat →
  for_fold (seq a k) line_data (λ x line_data,
    let! '(r, g, b) := getpixel img x y in
    let rgb565 := rgb888_to_rgb565 r g b in
    let! packed := struct_pack_H rgb565 in
    ret (line_data ++ packed)) w
  = (w, Ok (line_data ++ concat ((λ x, le16 (packed_pixel img x y)) <$> seq a k))).
Proof.
  induction k as [|k IH]; intros a line_data w Ha Hy.
  - simpl. by rewrite app_nil_r.
  - cbn [seq for_fold]. erewrite bind_ok by (apply line_body_run; lia).
    rewrite IH by lia. by rewrite <- app_assoc.
Qed.

Lemma line_loop_run y w :
  (y < height)%nat →
  line_loop width img y w
  = (w, Ok (concat ((λ x, le16 (packed_pixel img x y)) <$> seq 0 width))).
Proof. intros Hy. unfold line_loop. by rewrite line_fold_run by (done || lia). Qed.

Lemma framebuffer_fold_run k : ∀ a framebuffer w,
  (a + k ≤ height)%nat →
  for_fold (seq a k) framebuffer (λ y framebuffer,
    let! line_data := line_loop width img y in
    let line_data := line_data ++ replicate padding 0 in
    ret (framebuffer ++ line_data)) w
  = (w, Ok (framebuffer ++ concat (scanline width padding img <$> seq a k))).
Proof.
  induction k as [|k IH]; intros a framebuffer w Ha.
  - simpl. by rewrite app_nil_r.
  - cbn [seq for_fold]. erewrite bind_ok; cycle 1.
    { erewrite bind_ok by (apply line_loop_run; lia). done. }
    rewrite IH by lia. by rewrite <- app_assoc.
Qed.

Lemma framebuffer_loop_run w :
  framebuffer_loop width height padding img w
  = (w, Ok (framebuffer_of width height padding img)).
Proof. unfold framebuffer_loop. by rewrite framebuffer_fold_run by lia. Qed.
End framebuffer.

Lemma length_concat_fmap {A B} (f : A → list B) (m : nat) (xs : list A) :
  (∀ x, length (f x) = m) → length (concat (f <$> xs)) = (length xs * m)%nat.
Proof.
  intros Hf. induction xs as [|x xs IH]; [done|].
  cbn [fmap list_fmap concat length]. rewrite length_app, Hf.
  change (list_fmap _ _ f xs) with (f <$> xs). rewrite IH. lia.
Qed.

Lemma scanline_length width padding img y :
  length (scanline width padding img y) = (width * 2 + padding)%nat.
Proof.
  unfold scanline. rewrite length_app, length_replicate.
  rewrite (length_concat_fmap _ 2) by done. by rewrite length_seq.
Qed.

Lemma framebuffer_of_length width height padding img :
  length (framebuffer_of width height padding img) = (height * (width * 2 + padding))%nat.
Proof.
  unfold framebuffer_of.
  rewrite (length_concat_fmap _ (width * 2 + padding)) by (intros; apply scanline_length).
  by rewrite length_seq.
Qed.

(** The bytes of pixel [(x, y)] and of the padding, by position. *)
Lemma framebuffer_of_row width height padding img y :
  (y < height)%nat →
  take (width * 2 + padding) (drop (y * (width * 2 + padding))
    (framebuffer_of width height padding img))
  = scanline width padding img y.
Proof.
  intros Hy. unfold framebuffer_of.
  assert (Hsplit : seq 0 height = seq 0 y ++ y :: seq (S y) (height - S y)).
  { replace height with (y + S (height - S y))%nat at 1 by lia.
    by rewrite seq_app. }
  rewrite Hsplit, fmap_app, concat_app. cbn [fmap list_fmap concat].
  rewrite drop_app_length'.
  - rewrite take_app_length'; [done|symmetry; apply scanline_length].
  - rewrite (length_concat_fmap _ (width * 2 + padding)) by (intros; apply scanline_length).
    by rewrite length_seq.
Qed.

Lemma prepare_image_run env path raw w :
  image_file env path = Ok raw →
  let img := Image_convert_RGB env (Image_resize env raw (DISPLAY_WIDTH, DISPLAY_HEIGHT)) in
  prepare_image env path w =
    (World (<[fresh (dom (heap w)) :=
                Bytes (framebuffer_of DISPLAY_WIDTH DISPLAY_HEIGHT LINE_PADDING img)]> (heap w))
           (usb_log w),
     Ok (fresh (dom (heap w)))).
Proof.
  intros Hopen img. unfold prepare_image, Image_open. rewrite Hopen.
  unfold bind at 1. unfold ret at 1. fold img.
  erewrite bind_ok by (by apply framebuffer_loop_run). done.
Qed.

Lemma prepare_image_fails env path e w :
  image_file env path = Raise e → prepare_image env path w = (w, Raise e).
Proof. intros Hopen. unfold prepare_image, Image_open. by rewrite Hopen. Qed.

(** ** More on sequences of writes *)

Lemma transmit_none dev log calls :
  (transmit dev log calls).2 = None → (transmit dev log calls).1 = log ++ calls.
Proof.
  intros Hnone. destruct (transmit_prefix dev calls log) as (m & Hm & Hlog & Herr).
  rewrite Hnone in Herr. subst m. by rewrite Hlog, firstn_all.
Qed.

Lemma transmit_app dev calls1 : ∀ log calls2,
  transmit dev log (calls1 ++ calls2) =
    match (transmit dev log calls1).2 with
    | None => transmit dev (log ++ calls1) calls2
    | Some e => transmit dev log calls1
    end.
Proof.
  induction calls1 as [|c calls1 IH]; intros log calls2; simpl.
  - by rewrite app_nil_r.
  - destruct (write_outcome dev log (call_endpoint c) (call_data c)); [done|].
    rewrite IH. by rewrite <- app_assoc.
Qed.

(** The first [n] calls go through and call [n] raises: nothing after call
    [n] is attempted. *)
Lemma transmit_stops dev log calls n c e :
  (transmit dev log (take n calls)).2 = None →
  calls !! n = Some c →
  write_outcome dev (log ++ take n calls) (call_endpoint c) (call_data c) = Some e →
  transmit dev log calls = (log ++ take (S n) calls, Some e).
Proof.
  intros Hprev Hc He. rewrite <- (take_drop n calls) at 1.
  rewrite transmit_app, Hprev. rewrite (drop_S _ _ _ Hc). simpl. rewrite He.
  by rewrite <- app_assoc, (take_S_r _ _ _ Hc).
Qed.

Lemma transmit_header dev log calls c :
  ∃ rest, (transmit dev log (c :: calls)).1 = log ++ c :: rest.
Proof.
  simpl. destruct (write_outcome dev log (call_endpoint c) (call_data c)).
  - by exists [].
  - destruct (transmit_prefix dev calls (log ++ [c])) as (m & _ & Hlog & _).
    exists (take m calls). by rewrite Hlog, <- app_assoc.
Qed.

(** ** Connection state *)

Lemma send_frame_with_not_connected pattern chunk_size self fb w :
  device self = None →
  send_frame_with pattern chunk_size self fb w =
    (w, Raise (RuntimeError "Device not connected. Call connect() first.")).
Proof. intros Hd. unfold send_frame_with. by rewrite Hd. Qed.

Lemma connect_not_found env self :
  usb_find env VENDOR_ID PRODUCT_ID = None →
  device (connect env self).1 = None
  ∧ (connect env self).2 =
      Raise (RuntimeError "Push 3 device not found. Make sure it's connected via USB.").
Proof. intros Hf. unfold connect. simpl. by rewrite Hf. Qed.

(** A device that is found but cannot be configured stays assigned to the
    object although [connect] raised. *)
Lemma connect_unconfigured env self dev e :
  usb_find env VENDOR_ID PRODUCT_ID = Some dev → set_configuration env dev = Some e →
  device (connect env self).1 = Some dev
  ∧ (connect env self).2
    = Raise (RuntimeError ("Failed to configure device: " ++ exn_text env e)).
Proof. intros Hf Hc. unfold connect. simpl. by rewrite Hf, Hc. Qed.

Lemma connect_ok env self :
  (connect env self).2 = Ok tt → is_Some (device (connect env self).1).
Proof.
  unfold connect. simpl. destruct (usb_find env VENDOR_ID PRODUCT_ID) as [dev|]; [|done].
  by destruct (set_configuration env dev).
Qed.

Lemma XOR_PATTERN_bytes : is_bytes XOR_PATTERN.
Proof. unfold XOR_PATTERN, is_bytes, is_byte. repeat constructor; lia. Qed.

Lemma CHUNK_SIZE_pos : (0 < CHUNK_SIZE)%nat.
Proof. unfold CHUNK_SIZE. lia. Qed.

(** A run of [send_frame] that returns has made every call of the frame. *)
Lemma send_frame_with_ok_log pattern chunk_size dev dbg fb o w :
  length pattern = 4%nat → is_bytes pattern → (0 < chunk_size)%nat →
  heap w !! fb = Some o → is_bytes (contents o) →
  (send_frame_with pattern chunk_size (Display (Some dev) dbg) fb w).2 = Ok tt →
  usb_log (send_frame_with pattern chunk_size (Display (Some dev) dbg) fb w).1
    = usb_log w ++ frame_calls pattern chunk_size (contents o).
Proof.
  intros Hlen Hpat Hcs Hfb Hb Hok.
  destruct (send_frame_with_calls pattern chunk_size dev dbg fb o w) as [Hlog Hres];
    [done..|].
  rewrite Hlog. apply transmit_none. rewrite Hres in Hok.
  by destruct (transmit _ _ _).2.
Qed.

Lemma chunks_full_frame (p : list Z) :
  length p = Z.to_nat 327680 →
  length (chunks CHUNK_SIZE p) = 20%nat
  ∧ Forall (λ c, length c = Z.to_nat 16384) (chunks CHUNK_SIZE p).
Proof.
  intros Hp.
  assert (Hcount : chunk_count CHUNK_SIZE (length p) = 20%nat)
    by (rewrite Hp; vm_compute; reflexivity).
  split; [by rewrite chunks_length by apply CHUNK_SIZE_pos|].
  apply Forall_lookup_2. intros k c Hk.
  pose proof (lookup_lt_Some _ _ _ Hk) as Hlt.
  rewrite chunks_length, Hcount in Hlt by apply CHUNK_SIZE_pos.
  rewrite chunks_lookup in Hk by (apply CHUNK_SIZE_pos || lia).
  injection Hk as <-. rewrite length_take, length_drop, Hp. unfold CHUNK_SIZE. lia.
Qed.

(** The bytes carried by a sequence of calls are those of their data. *)
Lemma call_data_fmap ep (cs : list (list Z)) : call_data <$> (UsbCall ep <$> cs) = cs.
Proof. induction cs as [|c cs IH]; [done|]. simpl. by f_equal. Qed.

(** ** Failing devices *)

Lemma transmit_fails_at n e calls : ∀ log,
  (length log ≤ n)%nat → (n - length log < length calls)%nat →
  transmit (fails_at n e) log calls = (log ++ take (S (n - length log)) calls, Some e).
Proof.
  induction calls as [|c calls IH]; intros log Hlog Hn; simpl in *; [lia|].
  case_decide as Hd.
  - replace (n - length log)%nat with 0%nat by lia. by rewrite take_0.
  - rewrite IH by (rewrite length_app; simpl; lia).
    rewrite length_app. simpl.
    replace (n - length log)%nat with (S (n - (length log + 1)))%nat by lia.
    by rewrite <- app_assoc.
Qed.

Lemma send_frame_fails_at (b : list Z) (k : nat) (e : exn) :
  is_bytes b → (k < chunk_count CHUNK_SIZE (length b))%nat →
  (send_frame (Display (Some (fails_at (S k) e)) false) 1%positive (store_of b)).2 = Raise e
  ∧ length (usb_log (send_frame (Display (Some (fails_at (S k) e)) false) 1%positive
                       (store_of b)).1) = S (S k).
Proof.
  intros Hb Hk.
  destruct (send_frame_with_calls XOR_PATTERN CHUNK_SIZE (fails_at (S k) e) false
              1%positive (Bytes b) (store_of b)) as [Hlog Hres];
    [done|apply XOR_PATTERN_bytes|apply CHUNK_SIZE_pos|done..|].
  assert (Hcalls : length (frame_calls XOR_PATTERN CHUNK_SIZE b)
                   = S (chunk_count CHUNK_SIZE (length b))).
  { unfold frame_calls. cbn [length]. by rewrite length_fmap, chunks_length, xor_bytes_length. }
  unfold send_frame. rewrite Hres, Hlog.
  change (usb_log (store_of b)) with (@nil usb_call). change (contents (Bytes b)) with b.
  rewrite transmit_fails_at; [|cbn [length]; lia|cbn [length]; rewrite Hcalls; lia].
  cbn [fst snd]. split; [done|].
  rewrite app_nil_l, length_take, Hcalls. cbn [length]. lia.
Qed.

(** The first [k] chunks of a payload that has more than [k] chunks are
    full: together they hold [k * chunk_size] bytes. *)
Lemma concat_take_chunks chunk_size (p : list Z) k :
  (0 < chunk_size)%nat → (k ≤ chunk_count chunk_size (length p))%nat →
  concat (take k (chunks chunk_size p)) = take (k * chunk_size) p.
Proof.
  intros Hpos Hk. unfold chunks. rewrite <- fmap_take, take_seq.
  replace (k `min` chunk_count chunk_size (length p))%nat with k by lia.
  by apply concat_chunks_prefix.
Qed.

(** The general form of a run stopped by a failing write. *)
Lemma send_frame_with_stops pattern chunk_size dev dbg fb o w n c e :
  length pattern = 4%nat → is_bytes pattern → (0 < chunk_size)%nat →
  heap w !! fb = Some o → is_bytes (contents o) →
  let calls := frame_calls pattern chunk_size (contents o) in
  (transmit dev (usb_log w) (take n calls)).2 = None →
  calls !! n = Some c →
  write_outcome dev (usb_log w ++ take n calls) (call_endpoint c) (call_data c) = Some e →
  let run := send_frame_with pattern chunk_size (Display (Some dev) dbg) fb w in
  run.2 = Raise e ∧ usb_log run.1 = usb_log w ++ take (S n) calls.
Proof.
  intros Hlen Hpat Hcs Hfb Hb calls Hprev Hc He run.
  destruct (send_frame_with_calls pattern chunk_size dev dbg fb o w) as [Hlog Hres];
    [done..|].
  fold run in Hlog, Hres. fold calls in Hlog, Hres.
  rewrite (transmit_stops dev (usb_log w) calls n c e Hprev Hc He) in Hlog, Hres.
  by split.
Qed.

Lemma le16_bytes v : is_bytes (le16 v).
Proof.
  unfold le16, is_bytes, is_byte. change 255 with (Z.ones 8).
  repeat constructor; apply (land_ones_range _ 8); lia.
Qed.

(** [struct.pack('<H', v)] is little-endian: the low byte comes first. *)
Lemma le16_little_endian v :
  0 ≤ v ≤ 0xFFFF → le16 v = [v `mod` 256; v `div` 256].
Proof.
  intros Hv. unfold le16. change 255 with (Z.ones 8).
  rewrite !Z.land_ones, Z.shiftr_div_pow2 by lia. change (2 ^ 8) with 256.
  rewrite (Z.mod_small (v `div` 256)); [done|].
  split; [apply Z.div_pos; lia|apply Z.div_lt_upper_bound; lia].
Qed.

Lemma framebuffer_of_bytes width height padding img :
  is_bytes (framebuffer_of width height padding img).
Proof.
  unfold framebuffer_of, is_bytes. apply Forall_concat, Forall_fmap, Forall_forall.
  intros y _. simpl. unfold scanline. apply Forall_app. split.
  - apply Forall_concat, Forall_fmap, Forall_forall. intros x _. apply le16_bytes.
  - apply Forall_replicate. unfold is_byte. lia.
Qed.

(** ** Devices that never fail, and the whole pipeline *)

Lemma transmit_reliable calls : ∀ log, transmit reliable log calls = (log ++ calls, None).
Proof. intros log. by apply transmit_ok. Qed.

(** When no write of the frame raises, [send_frame] returns. *)
Lemma send_frame_with_returns pattern chunk_size dev dbg fb o w :
  length pattern = 4%nat → is_bytes pattern → (0 < chunk_size)%nat →
  heap w !! fb = Some o → is_bytes (contents o) →
  (transmit dev (usb_log w) (frame_calls pattern chunk_size (contents o))).2 = None →
  (send_frame_with pattern chunk_size (Display (Some dev) dbg) fb w).2 = Ok tt.
Proof.
  intros Hlen Hpat Hcs Hfb Hb Hnone.
  destruct (send_frame_with_calls pattern chunk_size dev dbg fb o w) as [_ Hres];
    [done..|].
  by rewrite Hres, Hnone.
Qed.

Lemma display_image_run env self path raw w :
  image_file env path = Ok raw →
  let img := Image_convert_RGB env (Image_resize env raw (DISPLAY_WIDTH, DISPLAY_HEIGHT)) in
  let fb := framebuffer_of DISPLAY_WIDTH DISPLAY_HEIGHT LINE_PADDING img in
  display_image env self path w =
    send_frame self (fresh (dom (heap w)))
      (World (<[fresh (dom (heap w)) := Bytes fb]> (heap w)) (usb_log w)).
Proof.
  intros Hopen img fb. unfold display_image.
  by erewrite bind_ok by (by apply prepare_image_run).
Qed.

Lemma frame_size :
  (DISPLAY_HEIGHT * (DISPLAY_WIDTH * 2 + LINE_PADDING))%nat = Z.to_nat 327680.
Proof. unfold DISPLAY_HEIGHT, DISPLAY_WIDTH, LINE_PADDING. lia. Qed.

Lemma frame_calls_length pattern chunk_size b :
  length (frame_calls pattern chunk_size b)
  = S (chunk_count chunk_size (length b)).
Proof.
  unfold frame_calls. cbn [length].
  by rewrite length_fmap, chunks_length, xor_bytes_length.
Qed.

Lemma full_frame_chunk_count : chunk_count CHUNK_SIZE (Z.to_nat 327680) = 20%nat.
Proof. vm_compute. reflexivity. Qed.

(** On a device that never fails, [display_image] sends a whole frame for
    any image that opens: the header and 20 chunks. *)
Lemma display_image_reliable env dbg path raw w :
  image_file env path = Ok raw →
  (display_image env (Display (Some reliable) dbg) path w).2 = Ok tt
  ∧ length (usb_log (display_image env (Display (Some reliable) dbg) path w).1)
    = (length (usb_log w) + 21)%nat.
Proof.
  intros Hopen. rewrite (display_image_run env _ path raw w Hopen).
  set (fb := framebuffer_of _ _ _ _). set (l := fresh _).
  set (w1 := World (<[l := Bytes fb]> (heap w)) (usb_log w)).
  assert (Hl : heap w1 !! l = Some (Bytes fb)) by apply lookup_insert_eq.
  assert (Hb : is_bytes (contents (Bytes fb))) by apply framebuffer_of_bytes.
  assert (Hfb : length fb = Z.to_nat 327680)
    by (unfold fb; rewrite framebuffer_of_length; apply frame_size).
  assert (Hret : (send_frame (Display (Some reliable) dbg) l w1).2 = Ok tt).
  { apply (send_frame_with_returns XOR_PATTERN CHUNK_SIZE reliable dbg l (Bytes fb) w1
             eq_refl XOR_PATTERN_bytes CHUNK_SIZE_pos Hl Hb).
    by rewrite transmit_reliable. }
  split; [exact Hret|]. unfold send_frame in *.
  rewrite (send_frame_with_ok_log XOR_PATTERN CHUNK_SIZE reliable dbg l (Bytes fb) w1
             eq_refl XOR_PATTERN_bytes CHUNK_SIZE_pos Hl Hb Hret).
  rewrite length_app, frame_calls_length.
  change (contents (Bytes fb)) with fb. rewrite Hfb, full_frame_chunk_count.
  reflexivity.
Qed.

(** * The claims *)

(** C7.  For all channel values [r], [g], [b] of [0, 255], the pixel codec
    returns exactly [((r>>3)&0x1F)<<11 | ((g>>2)&0x3F)<<5 | ((b>>3)&0x1F)];
    the value is an unsigned 16-bit integer whose three fields are the
    shifted channels; and [255, 0, 0] encodes to [0xF800]. *)
Theorem rgb888_to_rgb565_exact (r g b : Z) :
  is_byte r → is_byte g → is_byte b →
  rgb888_to_rgb565 r g b
    = Z.lor (Z.lor (Z.land (r ≫ 3) 0x1F ≪ 11) (Z.land (g ≫ 2) 0x3F ≪ 5)) (Z.land (b ≫ 3) 0x1F)
  ∧ 0 ≤ rgb888_to_rgb565 r g b ≤ 0xFFFF
  ∧ rgb888_to_rgb565 r g b ≫ 11 = r ≫ 3
  ∧ Z.land (rgb888_to_rgb565 r g b ≫ 5) 0x3F = g ≫ 2
  ∧ Z.land (rgb888_to_rgb565 r g b) 0x1F = b ≫ 3
  ∧ rgb888_to_rgb565 255 0 0 = 0xF800.
Proof.
  intros Hr Hg Hb. split; [reflexivity|]. split; [apply rgb565_range|].
  rewrite rgb565_red, rgb565_green, rgb565_blue. unfold field5, field6.
  split; [apply (byte_shift_mask r 3 5); (done || lia)|].
  split; [apply (byte_shift_mask g 2 6); (done || lia)|].
  split; [apply (byte_shift_mask b 3 5); (done || lia)|].
  reflexivity.
Qed.

Lemma rgb888_to_rgb565_exact_red :
  rgb888_to_rgb565 255 0 0 = 0xF800 ∧ rgb888_to_rgb565 255 0 0 ≫ 11 = 255 ≫ 3.
Proof.
  pose proof (rgb888_to_rgb565_exact 255 0 0) as H.
  destruct H as (_ & _ & Hred & _ & _ & Hval); unfold is_byte; [lia..|].
  split; [exact Hval|exact Hred].
Defined.

(** C9, as amended.  The guard of [send_frame] looks at the handle, not
    at whether a [connect] has returned: with no device handle
    ([self.device] is [None]) [send_frame] raises the "Device not
    connected" error and nothing else happens: the endpoint sees no call,
    the header included, and the store is as it was.  This is the state
    of an object just constructed and of one whose last [connect] found
    no device. *)
Theorem send_frame_not_connected (self : Push3Display) (framebuffer : loc) (w : world) :
  device self = None →
  send_frame self framebuffer w =
    (w, Raise (RuntimeError "Device not connected. Call connect() first.")).
Proof. apply send_frame_with_not_connected. Qed.

Lemma send_frame_not_connected_fresh :
  send_frame (init false) 1%positive (store_of [1; 2; 3]) =
    (store_of [1; 2; 3], Raise (RuntimeError "Device not connected. Call connect() first."))
  ∧ send_frame (connect empty_bus_env (init false)).1 1%positive (store_of [1; 2; 3]) =
      (store_of [1; 2; 3], Raise (RuntimeError "Device not connected. Call connect() first.")).
Proof.
  split.
  - apply (send_frame_not_connected (init false)). reflexivity.
  - apply (send_frame_not_connected (connect empty_bus_env (init false)).1). reflexivity.
Defined.

(** C9, as the claim words it, does not hold: "before a successful
    connect" takes in an object whose only [connect] raised in
    [set_configuration].  That [connect] has assigned [self.device]
    before it raised, so no [connect] has succeeded and yet [send_frame]
    does not raise: it writes the header and the payload to the device
    and returns. *)
Lemma send_frame_after_failed_connect :
  connect unconfigured_env (init false)
  = (Display (Some reliable) false,
     Raise (RuntimeError "Failed to configure device: Access denied"))
  ∧ (send_frame (connect unconfigured_env (init false)).1 1%positive
       (store_of [1; 2; 3])).2 = Ok tt
  ∧ usb_log (send_frame (connect unconfigured_env (init false)).1 1%positive
               (store_of [1; 2; 3])).1
    = [UsbCall 0x01 FRAME_HEADER; UsbCall 0x01 [0xE6; 0xF1; 0xE4]]
  ∧ send_frame (connect unconfigured_env (init false)).1 1%positive (store_of [1; 2; 3])
    ≠ (store_of [1; 2; 3], Raise (RuntimeError "Device not connected. Call connect() first.")).
Proof.
  assert (Hc : connect unconfigured_env (init false)
               = (Display (Some reliable) false,
                  Raise (RuntimeError "Failed to configure device: Access denied")))
    by reflexivity.
  assert (Hb : is_bytes (contents (Bytes [1; 2; 3])))
    by (unfold is_bytes, is_byte; repeat constructor; lia).
  destruct (send_frame_with_calls XOR_PATTERN CHUNK_SIZE reliable false 1%positive
              (Bytes [1; 2; 3]) (store_of [1; 2; 3]))
    as [Hlog Hres]; [done|apply XOR_PATTERN_bytes|apply CHUNK_SIZE_pos|done..|].
  fold (send_frame (Display (Some reliable) false) 1%positive (store_of [1; 2; 3]))
    in Hlog, Hres.
  rewrite transmit_reliable in Hlog, Hres. cbn [fst snd] in Hlog, Hres.
  assert (Hcalls : frame_calls XOR_PATTERN CHUNK_SIZE (contents (Bytes [1; 2; 3]))
                   = [UsbCall 0x01 FRAME_HEADER; UsbCall 0x01 [0xE6; 0xF1; 0xE4]])
    by (vm_compute; reflexivity).
  rewrite Hcalls in Hlog.
  split; [exact Hc|]. rewrite Hc. cbn [fst].
  split; [exact Hres|]. split; [exact Hlog|].
  intros Heq. rewrite Heq in Hres. discriminate Hres.
Qed.

(** C10.  [send_frame] leaves its argument as it found it: whatever the
    outcome, the object the caller passed holds the same bytes afterwards,
    and so does every other object the store held. *)
Theorem send_frame_keeps_framebuffer (self : Push3Display) (framebuffer : loc)
    (o : buffer) (w : world) :
  heap w !! framebuffer = Some o →
  heap (send_frame self framebuffer w).1 !! framebuffer = Some o
  ∧ heap w ⊆ heap (send_frame self framebuffer w).1.
Proof.
  intros Hfb.
  assert (Hsub : heap w ⊆ heap (send_frame self framebuffer w).1)
    by (by apply keeps_send_frame_with).
  split; [|done]. by eapply lookup_weaken.
Qed.

Lemma send_frame_keeps_framebuffer_mutable :
  heap (send_frame (Display (Some reliable) false) 1%positive
          (World {[ 1%positive := ByteArray [1; 2; 3; 4; 5] ]} [])).1 !! 1%positive
  = Some (ByteArray [1; 2; 3; 4; 5]).
Proof.
  refine (proj1 (send_frame_keeps_framebuffer _ 1%positive (ByteArray [1; 2; 3; 4; 5])
                   (World {[ 1%positive := ByteArray [1; 2; 3; 4; 5] ]} []) _)).
  vm_compute. reflexivity.
Defined.

(** C6.  For every byte buffer and every 4-byte key the XOR pass returns,
    and passing its result through it again gives back the bytes of the
    buffer. *)
Theorem encrypt_twice (key : list Z) (data : loc) (o : buffer) (w : world) :
  length key = 4%nat → is_bytes key →
  heap w !! data = Some o → is_bytes (contents o) →
  ∃ w1 l1 w2 l2,
    encrypt_with key data w = (w1, Ok l1)
    ∧ encrypt_with key l1 w1 = (w2, Ok l2)
    ∧ heap w2 !! l2 = Some (Bytes (contents o)).
Proof.
  intros Hlen Hkey Hd Hb.
  pose proof (encrypt_with_run key Hlen Hkey data o w Hd Hb) as H1. simpl in H1.
  eexists _, _. 
  set (x := xor_bytes key (contents o)) in *.
  set (w1 := World _ _) in H1. set (l1 := fresh _) in H1.
  assert (Hl1 : heap w1 !! l1 = Some (Bytes x)) by (simpl; apply lookup_insert_eq).
  pose proof (encrypt_with_run key Hlen Hkey l1 (Bytes x) w1 Hl1
                (xor_bytes_is_bytes key (contents o) Hlen Hkey Hb)) as H2.
  simpl in H2. eexists _, _. split; [exact H1|]. split; [exact H2|].
  simpl. rewrite lookup_insert_eq. unfold x. by rewrite xor_bytes_involutive.
Qed.

Lemma encrypt_twice_sample :
  ∃ w1 l1 w2 l2,
    encrypt_with [1; 2; 3; 4] 1%positive (store_of [10; 20; 30; 40; 50; 60]) = (w1, Ok l1)
    ∧ encrypt_with [1; 2; 3; 4] l1 w1 = (w2, Ok l2)
    ∧ heap w2 !! l2 = Some (Bytes [10; 20; 30; 40; 50; 60]).
Proof.
  apply (encrypt_twice [1; 2; 3; 4] 1%positive (Bytes [10; 20; 30; 40; 50; 60])).
  - reflexivity.
  - unfold is_bytes, is_byte. repeat constructor; lia.
  - vm_compute. reflexivity.
  - unfold is_bytes, is_byte. repeat constructor; lia.
Defined.

(** C1.  A run of [send_frame] that returns has written, after the header,
    the chunks of the obfuscated payload in order: together they are the
    payload, none is empty or longer than the chunk size, all but the last
    are full, the last holds the remainder (a full chunk when the size
    divides the length), and there are [⌈n / size⌉] of them; 327,680 bytes
    in chunks of 16,384 make exactly 20 chunks of 16,384 bytes. *)
Theorem send_frame_partitions (chunk_size : nat) (dev : usb_device) (dbg : bool)
    (framebuffer : loc) (o : buffer) (w : world) :
  (0 < chunk_size)%nat →
  heap w !! framebuffer = Some o → is_bytes (contents o) →
  let run := send_frame_with XOR_PATTERN chunk_size (Display (Some dev) dbg) framebuffer w in
  let payload := xor_bytes XOR_PATTERN (contents o) in
  run.2 = Ok tt →
  ∃ cs : list (list Z),
    usb_log run.1 = usb_log w ++ UsbCall 0x01 FRAME_HEADER :: (UsbCall 0x01 <$> cs)
    ∧ concat cs = payload
    ∧ Forall (λ c, 0 < length c ≤ chunk_size)%nat cs
    ∧ (∀ k c, cs !! k = Some c → (S k < length cs)%nat → length c = chunk_size)
    ∧ (∀ c, last cs = Some c →
         length c = if decide (length payload `mod` chunk_size = 0)%nat
                    then chunk_size else (length payload `mod` chunk_size)%nat)
    ∧ ((0 < length payload)%nat → cs ≠ [])
    ∧ (length cs * chunk_size < length payload + chunk_size)%nat
    ∧ (chunk_size = Z.to_nat 16384 → length payload = Z.to_nat 327680 →
         length cs = 20%nat ∧ Forall (λ c, length c = Z.to_nat 16384) cs).
Proof.
  intros Hcs Hfb Hb run payload Hok.
  exists (chunks chunk_size payload).
  split; [by apply send_frame_with_ok_log; try apply XOR_PATTERN_bytes|].
  split; [by apply concat_chunks|].
  split; [apply Forall_forall; intros c Hc; by eapply chunk_length_bounds|].
  rewrite chunks_length by done.
  split; [intros k c Hc Hk; by eapply chunk_length_full|].
  split.
  { intros c Hc. rewrite last_lookup, chunks_length in Hc by done.
    pose proof (lookup_lt_Some _ _ _ Hc) as Hlt. rewrite chunks_length in Hlt by done.
    set (k := Init.Nat.pred (chunk_count chunk_size (length payload))) in *.
    assert (Hk : S k = chunk_count chunk_size (length payload)) by lia.
    destruct (chunk_length_last chunk_size Hcs payload k c Hc Hk) as [-> _].
    by apply last_chunk_remainder. }
  split.
  { intros Hn Hnil. pose proof (chunk_count_pos chunk_size Hcs _ Hn) as Hpos.
    rewrite <- (chunks_length chunk_size payload), Hnil in Hpos. simpl in Hpos. lia. }
  split.
  { destruct (chunk_count_bounds chunk_size Hcs (length payload)) as [[H1|H0] _].
    - destruct (chunk_count chunk_size (length payload)); simpl in *; lia.
    - rewrite H0, chunk_count_0 by done. lia. }
  intros -> Hn. rewrite <- (chunks_length (Z.to_nat 16384) payload).
  exact (chunks_full_frame payload Hn).
Qed.

Lemma send_frame_partitions_two_chunks :
  ∃ cs : list (list Z),
    usb_log (send_frame_with XOR_PATTERN 4 (Display (Some reliable) false) 1%positive
               (store_of [1; 2; 3; 4; 5; 6])).1
      = UsbCall 0x01 FRAME_HEADER :: (UsbCall 0x01 <$> cs)
    ∧ concat cs = xor_bytes XOR_PATTERN [1; 2; 3; 4; 5; 6]
    ∧ Forall (λ c, 0 < length c ≤ 4)%nat cs.
Proof.
  destruct (send_frame_partitions 4 reliable false 1%positive (Bytes [1; 2; 3; 4; 5; 6])
              (store_of [1; 2; 3; 4; 5; 6])) as (cs & Hlog & Hcat & Hlen & _).
  - lia.
  - vm_compute. reflexivity.
  - unfold is_bytes, is_byte. repeat constructor; lia.
  - vm_compute. reflexivity.
  - exists cs. split; [exact Hlog|]. split; [exact Hcat|exact Hlen].
Defined.

(** C3.  On a connected object the first call of [send_frame] is always
    the one write of the 16 header bytes [FF CC AA 88 00 .. 00]; if that
    write raises, nothing else is written; if [send_frame] returns, the
    calls after the header are the chunks of the payload, one write each,
    in payload order, and it does return when no write raises; for a
    framebuffer of 327,680 bytes these are 20 writes carrying 327,680
    bytes in all. *)
Theorem send_frame_header_first (dev : usb_device) (dbg : bool) (framebuffer : loc)
    (o : buffer) (w : world) :
  heap w !! framebuffer = Some o → is_bytes (contents o) →
  let run := send_frame (Display (Some dev) dbg) framebuffer w in
  let header := [0xFF; 0xCC; 0xAA; 0x88] ++ replicate 12 0 in
  length header = 16%nat
  ∧ (∃ rest, usb_log run.1 = usb_log w ++ UsbCall 0x01 header :: rest)
  ∧ (∀ e, write_outcome dev (usb_log w) 0x01 header = Some e →
       run = (World (heap w) (usb_log w ++ [UsbCall 0x01 header]), Raise e))
  ∧ ((transmit dev (usb_log w) (frame_calls XOR_PATTERN CHUNK_SIZE (contents o))).2 = None →
       run.2 = Ok tt)
  ∧ (run.2 = Ok tt →
       usb_log run.1 = usb_log w ++ UsbCall 0x01 header
         :: (UsbCall 0x01 <$> chunks CHUNK_SIZE (xor_bytes XOR_PATTERN (contents o))))
  ∧ (run.2 = Ok tt → length (contents o) = Z.to_nat 327680 →
       ∃ payload_calls,
         usb_log run.1 = usb_log w ++ UsbCall 0x01 header :: payload_calls
         ∧ length payload_calls = 20%nat
         ∧ length (concat (call_data <$> payload_calls)) = Z.to_nat 327680).
Proof.
  intros Hfb Hb run header.
  assert (Hok : run.2 = Ok tt →
    usb_log run.1 = usb_log w ++ UsbCall 0x01 header
      :: (UsbCall 0x01 <$> chunks CHUNK_SIZE (xor_bytes XOR_PATTERN (contents o)))).
  { intros Hok. apply (send_frame_with_ok_log XOR_PATTERN CHUNK_SIZE); try done.
    - apply XOR_PATTERN_bytes.
    - apply CHUNK_SIZE_pos. }
  split; [done|]. split.
  { destruct (send_frame_with_calls XOR_PATTERN CHUNK_SIZE dev dbg framebuffer o w)
      as [Hlog _]; [done|apply XOR_PATTERN_bytes|apply CHUNK_SIZE_pos|done..|].
    fold (send_frame (Display (Some dev) dbg) framebuffer w) in Hlog. fold run in Hlog.
    rewrite Hlog. apply transmit_header. }
  split.
  { intros e He. unfold run, send_frame.
    rewrite (send_frame_with_run XOR_PATTERN CHUNK_SIZE dev dbg framebuffer o w);
      [|done|apply XOR_PATTERN_bytes|apply CHUNK_SIZE_pos|done..].
    change FRAME_HEADER with header. by rewrite He. }
  split.
  { intros Hnone. by apply (send_frame_with_returns XOR_PATTERN CHUNK_SIZE dev dbg
      framebuffer o w eq_refl XOR_PATTERN_bytes CHUNK_SIZE_pos). }
  split; [done|].
  intros Hret Hlen. eexists. split; [by apply Hok|].
  rewrite length_fmap, call_data_fmap, concat_chunks by apply CHUNK_SIZE_pos.
  rewrite xor_bytes_length. split; [|done].
  apply chunks_full_frame. by rewrite xor_bytes_length.
Qed.

Lemma send_frame_header_first_sample :
  usb_log (send_frame (Display (Some reliable) false) 1%positive
             (store_of [1; 2; 3; 4; 5; 6])).1
  = [UsbCall 0x01 [0xFF; 0xCC; 0xAA; 0x88; 0; 0; 0; 0; 0; 0; 0; 0; 0; 0; 0; 0];
     UsbCall 0x01 [0xE6; 0xF1; 0xE4; 0xFB; 0xE2; 0xF5]].
Proof.
  destruct (send_frame_header_first reliable false 1%positive (Bytes [1; 2; 3; 4; 5; 6])
              (store_of [1; 2; 3; 4; 5; 6])) as (_ & _ & _ & _ & Hlog & _).
  - vm_compute. reflexivity.
  - unfold is_bytes, is_byte. repeat constructor; lia.
  - rewrite Hlog by (vm_compute; reflexivity). vm_compute. reflexivity.
Defined.

(** C5.  [encrypt_framebuffer] returns a buffer of the length of its
    argument whose byte at index [i], counted from the start of the
    framebuffer, is the argument's byte XOR [key[i % 4]] for the key
    [E7 F3 E7 FF]; these are the bytes [send_frame] puts on the wire after
    the header, and the header itself is written as the constant, not
    passed through the transform. *)
Theorem encrypt_framebuffer_bytes (framebuffer : loc) (o : buffer) (w : world) :
  heap w !! framebuffer = Some o → is_bytes (contents o) →
  (∃ w' l x,
     encrypt_framebuffer framebuffer w = (w', Ok l)
     ∧ heap w' !! l = Some (Bytes x)
     ∧ usb_log w' = usb_log w
     ∧ length x = length (contents o)
     ∧ ∀ i v, contents o !! i = Some v →
         ∃ k, [0xE7; 0xF3; 0xE7; 0xFF] !! (i `mod` 4)%nat = Some k
              ∧ x !! i = Some (Z.lxor v k))
  ∧ ∀ dev dbg,
      let run := send_frame (Display (Some dev) dbg) framebuffer w in
      usb_log run.1 !! length (usb_log w) = Some (UsbCall 0x01 FRAME_HEADER)
      ∧ FRAME_HEADER ≠ xor_bytes XOR_PATTERN FRAME_HEADER
      ∧ (run.2 = Ok tt →
           ∀ i v, contents o !! i = Some v →
             ∃ k, [0xE7; 0xF3; 0xE7; 0xFF] !! (i `mod` 4)%nat = Some k
                  ∧ concat (call_data <$> drop (S (length (usb_log w))) (usb_log run.1)) !! i
                    = Some (Z.lxor v k)).
Proof.
  intros Hfb Hb.
  assert (Hpoint : ∀ i v, contents o !! i = Some v →
    ∃ k, [0xE7; 0xF3; 0xE7; 0xFF] !! (i `mod` 4)%nat = Some k
         ∧ xor_bytes XOR_PATTERN (contents o) !! i = Some (Z.lxor v k)).
  { intros i v Hv. change [231; 243; 231; 255] with XOR_PATTERN.
    destruct (lookup_lt_is_Some_2 XOR_PATTERN (i `mod` 4)%nat) as [k Hk].
    { simpl. apply Nat.mod_upper_bound. lia. }
    exists k. split; [done|].
    by rewrite xor_bytes_lookup, Hv, (list_lookup_total_correct _ _ _ Hk). }
  split.
  - pose proof (encrypt_with_run XOR_PATTERN eq_refl XOR_PATTERN_bytes framebuffer o w Hfb Hb)
      as Hrun. simpl in Hrun.
    eexists _, _, _. split; [exact Hrun|]. simpl.
    split; [apply lookup_insert_eq|]. split; [done|].
    split; [apply xor_bytes_length|done].
  - intros dev dbg run.
    destruct (send_frame_with_calls XOR_PATTERN CHUNK_SIZE dev dbg framebuffer o w)
      as [Hlog _]; [done|apply XOR_PATTERN_bytes|apply CHUNK_SIZE_pos|done..|].
    fold (send_frame (Display (Some dev) dbg) framebuffer w) in Hlog. fold run in Hlog.
    split.
    { rewrite Hlog. destruct (transmit_header dev (usb_log w)
        (UsbCall 1 <$> chunks CHUNK_SIZE (xor_bytes XOR_PATTERN (contents o)))
        (UsbCall 1 FRAME_HEADER)) as [rest Hrest].
      unfold frame_calls. rewrite Hrest. by rewrite list_lookup_middle. }
    split; [by vm_compute|].
    intros Hok i v Hv. destruct (Hpoint i v Hv) as (k & Hk & Hx). exists k. split; [done|].
    unfold run, send_frame.
    rewrite (send_frame_with_ok_log XOR_PATTERN CHUNK_SIZE dev dbg framebuffer o w);
      [|done|apply XOR_PATTERN_bytes|apply CHUNK_SIZE_pos|done..].
    unfold frame_calls.
    rewrite cons_middle, app_assoc, drop_app_length' by (rewrite length_app; simpl; lia).
    by rewrite call_data_fmap, concat_chunks by apply CHUNK_SIZE_pos.
Qed.

Lemma encrypt_framebuffer_bytes_sample :
  ∃ w' l x,
    encrypt_framebuffer 1%positive (store_of [0; 0; 0; 0; 0xFF]) = (w', Ok l)
    ∧ heap w' !! l = Some (Bytes x)
    ∧ length x = 5%nat.
Proof.
  destruct (encrypt_framebuffer_bytes 1%positive (Bytes [0; 0; 0; 0; 0xFF])
              (store_of [0; 0; 0; 0; 0xFF])) as [(w' & l & x & Hrun & Hl & _ & Hlen & _) _].
  - vm_compute. reflexivity.
  - unfold is_bytes, is_byte. repeat constructor; lia.
  - exists w', l, x. split; [exact Hrun|]. split; [exact Hl|exact Hlen].
Defined.

(** C2, as the code has it.  When the header and the chunks before chunk
    [k] go through and the write of chunk [k] raises [e], [send_frame]
    raises that same [e]: the exception of the transport, as it is.  The
    endpoint has then seen the header and the chunks up to chunk [k] and
    nothing after it, and the chunks that went through carry
    [k * CHUNK_SIZE] bytes. *)
Theorem send_frame_stops_at_failure (dev : usb_device) (dbg : bool) (framebuffer : loc)
    (o : buffer) (w : world) (k : nat) (c : usb_call) (e : exn) :
  heap w !! framebuffer = Some o → is_bytes (contents o) →
  let calls := frame_calls XOR_PATTERN CHUNK_SIZE (contents o) in
  (transmit dev (usb_log w) (take (S k) calls)).2 = None →
  calls !! S k = Some c →
  write_outcome dev (usb_log w ++ take (S k) calls) (call_endpoint c) (call_data c) = Some e →
  let run := send_frame (Display (Some dev) dbg) framebuffer w in
  run.2 = Raise e
  ∧ usb_log run.1 = usb_log w ++ take (S (S k)) calls
  ∧ length (usb_log run.1) = (length (usb_log w) + k + 2)%nat
  ∧ length (concat (call_data <$> take k (drop 1 calls))) = (k * CHUNK_SIZE)%nat.
Proof.
  intros Hfb Hb calls Hprev Hc He run.
  destruct (send_frame_with_stops XOR_PATTERN CHUNK_SIZE dev dbg framebuffer o w (S k) c e)
    as [Hres Hlog]; [done|apply XOR_PATTERN_bytes|apply CHUNK_SIZE_pos|done..|].
  fold (send_frame (Display (Some dev) dbg) framebuffer w) in Hres, Hlog.
  fold run in Hres, Hlog. fold calls in Hlog.
  pose proof (lookup_lt_Some _ _ _ Hc) as Hlt.
  split; [done|]. split; [done|]. split.
  - rewrite Hlog, length_app, length_take. lia.
  - unfold calls, frame_calls in *. simpl in Hlt. simpl drop. rewrite drop_0.
    rewrite length_fmap, chunks_length, xor_bytes_length in Hlt.
    rewrite <- fmap_take, call_data_fmap.
    rewrite concat_take_chunks
      by (apply CHUNK_SIZE_pos || (rewrite xor_bytes_length; lia)).
    rewrite length_take, xor_bytes_length.
    destruct (chunk_count_bounds CHUNK_SIZE CHUNK_SIZE_pos (length (contents o)))
      as [[H1|H0] _]; [|rewrite H0, chunk_count_0 in Hlt by apply CHUNK_SIZE_pos; lia].
    assert (k * CHUNK_SIZE ≤ (chunk_count CHUNK_SIZE (length (contents o)) - 1) * CHUNK_SIZE)%nat
      by (apply Nat.mul_le_mono_r; lia).
    lia.
Qed.

Lemma send_frame_stops_at_failure_first_chunk :
  (send_frame (Display (Some (fails_at 1 (USBError 5))) false) 1%positive
     (store_of [1; 2; 3; 4; 5; 6])).2 = Raise (USBError 5)
  ∧ length (usb_log (send_frame (Display (Some (fails_at 1 (USBError 5))) false) 1%positive
                       (store_of [1; 2; 3; 4; 5; 6])).1) = 2%nat.
Proof.
  destruct (send_frame_stops_at_failure (fails_at 1 (USBError 5)) false 1%positive
              (Bytes [1; 2; 3; 4; 5; 6]) (store_of [1; 2; 3; 4; 5; 6]) 0
              (UsbCall 1 [0xE6; 0xF1; 0xE4; 0xFB; 0xE2; 0xF5]) (USBError 5))
    as (Hres & _ & Hlen & _).
  - vm_compute. reflexivity.
  - unfold is_bytes, is_byte. repeat constructor; lia.
  - vm_compute. reflexivity.
  - vm_compute. reflexivity.
  - vm_compute. reflexivity.
  - split; [exact Hres|exact Hlen].
Defined.

(** C2, as the specification words it, does not hold.  On a framebuffer
    of 32,768 zero bytes (two chunks), a device that fails on chunk 0 and
    a device that fails on chunk 1, both with [USBError 5], make
    [send_frame] raise that same [USBError 5] after 2 and after 3 calls:
    neither the failing chunk nor the bytes sent can be read from what is
    raised. *)
Lemma send_frame_failure_not_staged :
  (send_frame (Display (Some (fails_at 1 (USBError 5))) false) 1%positive
     (store_of (replicate (Z.to_nat 32768) 0))).2 = Raise (USBError 5)
  ∧ (send_frame (Display (Some (fails_at 2 (USBError 5))) false) 1%positive
       (store_of (replicate (Z.to_nat 32768) 0))).2 = Raise (USBError 5)
  ∧ length (usb_log (send_frame (Display (Some (fails_at 1 (USBError 5))) false) 1%positive
                       (store_of (replicate (Z.to_nat 32768) 0))).1) = 2%nat
  ∧ length (usb_log (send_frame (Display (Some (fails_at 2 (USBError 5))) false) 1%positive
                       (store_of (replicate (Z.to_nat 32768) 0))).1) = 3%nat
  ∧ ¬ ∃ report, failure_reports_stage report.
Proof.
  set (b := replicate (Z.to_nat 32768) 0).
  assert (Hb : is_bytes b) by (apply Forall_replicate; unfold is_byte; lia).
  assert (Hcount : chunk_count CHUNK_SIZE (length b) = 2%nat)
    by (unfold b; rewrite length_replicate; vm_compute; reflexivity).
  assert (H0 : (0 < chunk_count CHUNK_SIZE (length b))%nat) by (rewrite Hcount; lia).
  assert (H1 : (1 < chunk_count CHUNK_SIZE (length b))%nat) by (rewrite Hcount; lia).
  destruct (send_frame_fails_at b 0 (USBError 5) Hb H0) as [Hres0 Hlen0].
  destruct (send_frame_fails_at b 1 (USBError 5) Hb H1) as [Hres1 Hlen1].
  split; [exact Hres0|]. split; [exact Hres1|].
  split; [exact Hlen0|]. split; [exact Hlen1|].
  intros [report Hreport].
  destruct (Hreport b 0%nat (USBError 5) Hb H0) as (ex0 & Hrun0 & Hrep0).
  destruct (Hreport b 1%nat (USBError 5) Hb H1) as (ex1 & Hrun1 & Hrep1).
  rewrite Hres0 in Hrun0. rewrite Hres1 in Hrun1.
  injection Hrun0 as <-. injection Hrun1 as <-.
  rewrite Hrep0 in Hrep1. pose proof (f_equal fst Hrep1) as Hstage.
  cbn [fst] in Hstage. lia.
Qed.

(** C4.  The loops of [prepare_image], run on a pixel source that covers
    [width] by [height], return the concatenation, for [y] from 0 to
    [height - 1], of the [width] packed pixels of the row, low byte first,
    followed by [padding] zero bytes; the result has
    [height * (width * 2 + padding)] bytes, and the framebuffer
    [prepare_image] allocates has 327,680 bytes whatever the image. *)
Theorem framebuffer_loop_output (img : image rgb_pixel) (width height padding : nat)
    (w : world) :
  (width ≤ (im_size img).1)%nat → (height ≤ (im_size img).2)%nat →
  framebuffer_loop width height padding img w =
    (w, Ok (concat ((λ y, concat ((λ x, le16 (packed_pixel img x y)) <$> seq 0 width)
                           ++ replicate padding 0) <$> seq 0 height)))
  ∧ (∀ x y, le16 (packed_pixel img x y)
            = [packed_pixel img x y `mod` 256; packed_pixel img x y `div` 256])
  ∧ length (framebuffer_of width height padding img) = (height * (width * 2 + padding))%nat
  ∧ (∀ env path raw, image_file env path = Ok raw →
       ∃ l fb, prepare_image env path w = (World (<[l := Bytes fb]> (heap w)) (usb_log w), Ok l)
               ∧ length fb = Z.to_nat 327680).
Proof.
  intros Hw Hh. split; [by apply framebuffer_loop_run|]. split.
  { intros x y. apply le16_little_endian. unfold packed_pixel.
    destruct (im_pixel img x y) as [[r g] b]. apply rgb565_range. }
  split; [apply framebuffer_of_length|].
  intros env path raw Hopen. eexists _, _. split; [by apply prepare_image_run|].
  rewrite framebuffer_of_length. unfold DISPLAY_HEIGHT, DISPLAY_WIDTH, LINE_PADDING. lia.
Qed.

Lemma framebuffer_loop_output_red :
  framebuffer_loop 2 2 1 (Image_convert_RGB sample_env tiny_image) (World ∅ []) =
    (World ∅ [], Ok [0x00; 0xF8; 0x00; 0xF8; 0; 0x00; 0xF8; 0x00; 0xF8; 0]).
Proof.
  destruct (framebuffer_loop_output (Image_convert_RGB sample_env tiny_image) 2 2 1
              (World ∅ [])) as [Hrun _].
  - simpl. lia.
  - simpl. lia.
  - rewrite Hrun. vm_compute. reflexivity.
Defined.

(** C8, as the code has it.  [prepare_image] does not reject a source for
    its size: whatever the size of the image that opens, the image is
    resized to 960 by 160 and a framebuffer of 327,680 bytes is allocated;
    the only failure is that of opening the file.  In no case does
    [prepare_image] write to the endpoint. *)
Theorem prepare_image_any_geometry (env : environment) (path : string) (w : world) :
  usb_log (prepare_image env path w).1 = usb_log w
  ∧ (∀ raw, image_file env path = Ok raw →
       ∃ l fb, prepare_image env path w = (World (<[l := Bytes fb]> (heap w)) (usb_log w), Ok l)
               ∧ heap w !! l = None
               ∧ is_bytes fb
               ∧ length fb = Z.to_nat 327680)
  ∧ (∀ e, image_file env path = Raise e → prepare_image env path w = (w, Raise e)).
Proof.
  assert (Hok : ∀ raw, image_file env path = Ok raw →
    ∃ l fb, prepare_image env path w = (World (<[l := Bytes fb]> (heap w)) (usb_log w), Ok l)
            ∧ heap w !! l = None ∧ is_bytes fb ∧ length fb = Z.to_nat 327680).
  { intros raw Hopen. eexists _, _. split; [by apply prepare_image_run|].
    split; [apply fresh_lookup|]. split; [apply framebuffer_of_bytes|].
    rewrite framebuffer_of_length. unfold DISPLAY_HEIGHT, DISPLAY_WIDTH, LINE_PADDING. lia. }
  split; [|split; [done|intros e He; by apply prepare_image_fails]].
  destruct (image_file env path) as [raw|e] eqn:Hopen.
  - destruct (Hok raw eq_refl) as (l & fb & -> & _). done.
  - by rewrite (prepare_image_fails env path e w Hopen).
Qed.

Lemma prepare_image_any_geometry_tiny :
  ∃ l fb, prepare_image sample_env "tiny.png" (World ∅ []) = (World {[ l := Bytes fb ]} [], Ok l)
          ∧ length fb = Z.to_nat 327680.
Proof.
  destruct (prepare_image_any_geometry sample_env "tiny.png" (World ∅ [])) as (_ & Hok & _).
  destruct (Hok tiny_image eq_refl) as (l & fb & Hrun & _ & _ & Hlen).
  exists l, fb. split; [exact Hrun|exact Hlen].
Defined.

(** C8, as the specification words it, does not hold: a 2 by 2 image is
    not 960 by 160, and [prepare_image] returns a framebuffer for it
    instead of raising; [display_image] then sends it, header and 20
    chunks. *)
Lemma prepare_image_accepts_small_image :
  im_size tiny_image ≠ (DISPLAY_WIDTH, DISPLAY_HEIGHT)
  ∧ image_file sample_env "tiny.png" = Ok tiny_image
  ∧ (∃ l, (prepare_image sample_env "tiny.png" (World ∅ [])).2 = Ok l)
  ∧ (¬ ∃ e, (prepare_image sample_env "tiny.png" (World ∅ [])).2 = Raise e)
  ∧ (display_image sample_env (Display (Some reliable) false) "tiny.png" (World ∅ [])).2
    = Ok tt
  ∧ length (usb_log (display_image sample_env (Display (Some reliable) false) "tiny.png"
                       (World ∅ [])).1) = 21%nat.
Proof.
  assert (Hrun := prepare_image_run sample_env "tiny.png" tiny_image (World ∅ []) eq_refl).
  cbv zeta in Hrun.
  split; [intros [= H _]; unfold DISPLAY_WIDTH in H; lia|].
  split; [reflexivity|].
  split; [rewrite Hrun; by eexists|].
  split; [rewrite Hrun; intros [e He]; discriminate He|].
  apply (display_image_reliable sample_env false "tiny.png" tiny_image (World ∅ []) eq_refl).
Qed.

(** * Further properties of the code *)

(** ** The pixel codec: what it keeps and what it drops *)

Lemma shiftr_byte_range v k : is_byte v → 0 ≤ k → 0 ≤ v ≫ k < 256.
Proof.
  intros [Hv Hv'] Hk. rewrite Z.shiftr_div_pow2 by done.
  assert (0 < 2 ^ k) by (apply Z.pow_pos_nonneg; lia).
  split; [apply Z.div_pos; lia|].
  apply Z.div_lt_upper_bound; [done|]. nia.
Qed.

Lemma field5_byte v : is_byte v → field5 v = v `div` 8.
Proof.
  intros Hv. unfold field5. change 31 with (Z.ones 5).
  rewrite (byte_shift_mask v 3 5) by (done || lia). by rewrite Z.shiftr_div_pow2.
Qed.

Lemma field6_byte v : is_byte v → field6 v = v `div` 4.
Proof.
  intros Hv. unfold field6. change 63 with (Z.ones 6).
  rewrite (byte_shift_mask v 2 6) by (done || lia). by rewrite Z.shiftr_div_pow2.
Qed.

(** A 16-bit value is the sum of its three fields, each at its place. *)
Lemma fields_sum v :
  0 ≤ v →
  v = (v ≫ 11) * 2048 + Z.land (v ≫ 5) 0x3F * 32 + Z.land v 0x1F.
Proof.
  intros Hv. change 63 with (Z.ones 6). change 31 with (Z.ones 5).
  rewrite !Z.land_ones, !Z.shiftr_div_pow2 by lia.
  change (2 ^ 11) with 2048. change (2 ^ 5) with 32. change (2 ^ 6) with 64.
  pose proof (Z.div_mod v 32 ltac:(lia)) as H1.
  pose proof (Z.div_mod (v `div` 32) 64 ltac:(lia)) as H2.
  rewrite Z.div_div in H2 by lia. change (32 * 64) with 2048 in H2. lia.
Qed.

Lemma rgb565_sum r g b :
  rgb888_to_rgb565 r g b = field5 r * 2048 + field6 g * 32 + field5 b.
Proof.
  pose proof (rgb565_range r g b) as [Hv _].
  rewrite (fields_sum _ Hv) at 1. by rewrite rgb565_red, rgb565_green, rgb565_blue.
Qed.

(** X1.  On byte channels the packed pixel is
    [(r // 8) * 2048 + (g // 4) * 32 + b // 8]: the bit operations of the
    codec never overlap. *)
Theorem rgb888_to_rgb565_arith (r g b : Z) :
  is_byte r → is_byte g → is_byte b →
  rgb888_to_rgb565 r g b = r `div` 8 * 2048 + g `div` 4 * 32 + b `div` 8.
Proof.
  intros Hr Hg Hb. by rewrite rgb565_sum, !field5_byte, field6_byte.
Qed.

Lemma rgb888_to_rgb565_arith_sample :
  rgb888_to_rgb565 200 100 50 = 200 `div` 8 * 2048 + 100 `div` 4 * 32 + 50 `div` 8.
Proof. apply rgb888_to_rgb565_arith; unfold is_byte; lia. Defined.

(** X2.  Two colours get the same packed pixel exactly when they agree on
    the five high bits of red, the six high bits of green and the five
    high bits of blue: the codec drops the low 3, 2 and 3 bits and nothing
    else. *)
Theorem rgb888_to_rgb565_same (r g b r' g' b' : Z) :
  is_byte r → is_byte g → is_byte b → is_byte r' → is_byte g' → is_byte b' →
  rgb888_to_rgb565 r g b = rgb888_to_rgb565 r' g' b'
  ↔ r `div` 8 = r' `div` 8 ∧ g `div` 4 = g' `div` 4 ∧ b `div` 8 = b' `div` 8.
Proof.
  intros Hr Hg Hb Hr' Hg' Hb'. rewrite <- !field5_byte, <- !field6_byte by done. split.
  - intros Heq. split; [|split].
    + by rewrite <- (rgb565_red r g b), <- (rgb565_red r' g' b'), Heq.
    + by rewrite <- (rgb565_green r g b), <- (rgb565_green r' g' b'), Heq.
    + by rewrite <- (rgb565_blue r g b), <- (rgb565_blue r' g' b'), Heq.
  - intros (H1 & H2 & H3). by rewrite !rgb565_sum, H1, H2, H3.
Qed.

Lemma rgb888_to_rgb565_same_sample :
  rgb888_to_rgb565 255 255 255 = rgb888_to_rgb565 248 252 249.
Proof.
  apply rgb888_to_rgb565_same; unfold is_byte; try lia.
  repeat split; reflexivity.
Defined.

(** X3.  The codec accepts any integers: it never fails, and a channel
    outside [0, 255] counts by its value modulo 256. *)
Theorem rgb888_to_rgb565_wraps (r g b : Z) :
  rgb888_to_rgb565 r g b
  = rgb888_to_rgb565 (r `mod` 256) (g `mod` 256) (b `mod` 256)
  ∧ 0 ≤ rgb888_to_rgb565 r g b ≤ 0xFFFF.
Proof.
  split; [|apply rgb565_range].
  assert (H5 : ∀ v, field5 v = field5 (v `mod` 256)).
  { intros v. unfold field5. change 31 with (Z.ones 5).
    rewrite !Z.land_ones, !Z.shiftr_div_pow2 by lia.
    change (2 ^ 3) with 8. change (2 ^ 5) with 32.
    pose proof (Z.div_mod v 256 ltac:(lia)) as Hv.
    rewrite Hv at 1. replace (256 * (v `div` 256) + v `mod` 256)
      with (v `mod` 256 + (v `div` 256 * 32) * 8) by lia.
    rewrite Z.div_add by lia. by rewrite Z.mod_add by lia. }
  assert (H6 : ∀ v, field6 v = field6 (v `mod` 256)).
  { intros v. unfold field6. change 63 with (Z.ones 6).
    rewrite !Z.land_ones, !Z.shiftr_div_pow2 by lia.
    change (2 ^ 2) with 4. change (2 ^ 6) with 64.
    pose proof (Z.div_mod v 256 ltac:(lia)) as Hv.
    rewrite Hv at 1. replace (256 * (v `div` 256) + v `mod` 256)
      with (v `mod` 256 + (v `div` 256 * 64) * 4) by lia.
    rewrite Z.div_add by lia. by rewrite Z.mod_add by lia. }
  by rewrite !rgb565_sum, <- !H5, <- H6.
Qed.

(** ** Where a pixel lands in the framebuffer *)

Lemma concat_fmap_lookup {A B} (f : A → list B) (m : nat) (xs : list A) :
  (∀ x, length (f x) = m) →
  ∀ k i, (i < m)%nat →
  concat (f <$> xs) !! (k * m + i)%nat = xs !! k ≫= λ x, f x !! i.
Proof.
  intros Hf. induction xs as [|x xs IH]; intros k i Hi; [done|].
  cbn [fmap list_fmap concat]. change (list_fmap _ _ f xs) with (f <$> xs).
  destruct k as [|k].
  - rewrite lookup_app_l by (rewrite Hf; lia). done.
  - rewrite lookup_app_r by (rewrite Hf; lia). rewrite Hf.
    replace (S k * m + i - m)%nat with (k * m + i)%nat by lia. by rewrite IH.
Qed.

Lemma framebuffer_of_lookup width height padding img y j :
  (y < height)%nat → (j < width * 2 + padding)%nat →
  framebuffer_of width height padding img !! (y * (width * 2 + padding) + j)%nat
  = scanline width padding img y !! j.
Proof.
  intros Hy Hj. unfold framebuffer_of.
  rewrite (concat_fmap_lookup _ (width * 2 + padding))
    by (done || intros; apply scanline_length).
  by rewrite lookup_seq_lt.
Qed.

Lemma scanline_lookup_pixel width padding img x y i :
  (x < width)%nat → (i < 2)%nat →
  scanline width padding img y !! (x * 2 + i)%nat = le16 (packed_pixel img x y) !! i.
Proof.
  intros Hx Hi. unfold scanline.
  rewrite lookup_app_l
    by (rewrite (length_concat_fmap _ 2) by done; rewrite length_seq; lia).
  rewrite (concat_fmap_lookup _ 2) by done. by rewrite lookup_seq_lt.
Qed.

Lemma scanline_lookup_padding width padding img y j :
  (j < padding)%nat →
  scanline width padding img y !! (width * 2 + j)%nat = Some 0.
Proof.
  intros Hj. unfold scanline.
  rewrite lookup_app_r
    by (rewrite (length_concat_fmap _ 2) by done; rewrite length_seq; lia).
  rewrite (length_concat_fmap _ 2), length_seq by done.
  replace (width * 2 + j - width * 2)%nat with j by lia.
  by apply lookup_replicate_2.
Qed.

(** X4.  In the framebuffer [prepare_image] returns, the pixel at column
    [x] of row [y] of the resized, converted image occupies the two bytes
    at offset [y * 2048 + 2 * x], low byte first, and the 128 bytes from
    offset [y * 2048 + 1920] of every row are zero. *)
Theorem prepare_image_pixel_offset (env : environment) (path : string)
    (raw : image raw_pixel) (w : world) :
  image_file env path = Ok raw →
  ∃ l fb,
    prepare_image env path w = (World (<[l := Bytes fb]> (heap w)) (usb_log w), Ok l)
    ∧ ∀ x y, (x < 960)%nat → (y < 160)%nat →
        let '(r, g, b) := to_rgb env (lanczos env raw (DISPLAY_WIDTH, DISPLAY_HEIGHT) x y) in
        fb !! (y * 2048 + 2 * x)%nat = Some (rgb888_to_rgb565 r g b `mod` 256)
        ∧ fb !! (y * 2048 + 2 * x + 1)%nat = Some (rgb888_to_rgb565 r g b `div` 256)
        ∧ ∀ j, (j < 128)%nat → fb !! (y * 2048 + 1920 + j)%nat = Some 0.
Proof.
  intros Hopen. eexists _, _. split; [by apply prepare_image_run|].
  intros x y Hx Hy.
  set (img := Image_convert_RGB env (Image_resize env raw (DISPLAY_WIDTH, DISPLAY_HEIGHT))).
  assert (Hw : DISPLAY_WIDTH = 960%nat) by reflexivity.
  assert (Hh : DISPLAY_HEIGHT = 160%nat) by reflexivity.
  assert (Hp : LINE_PADDING = 128%nat) by reflexivity.
  assert (Hpix : packed_pixel img x y =
    let '(r, g, b) := to_rgb env (lanczos env raw (DISPLAY_WIDTH, DISPLAY_HEIGHT) x y) in
    rgb888_to_rgb565 r g b) by reflexivity.
  destruct (to_rgb env (lanczos env raw (DISPLAY_WIDTH, DISPLAY_HEIGHT) x y)) as [[r g] b].
  pose proof (le16_little_endian _ (rgb565_range r g b)) as Hle. rewrite <- Hpix in Hle.
  rewrite Hw, Hh, Hp. change (960 * 2 + 128)%nat with 2048%nat in *.
  split; [|split].
  - replace (y * 2048 + 2 * x)%nat with (y * (960 * 2 + 128) + (x * 2 + 0))%nat by lia.
    rewrite framebuffer_of_lookup, scanline_lookup_pixel by lia.
    by rewrite Hle, Hpix.
  - replace (y * 2048 + 2 * x + 1)%nat with (y * (960 * 2 + 128) + (x * 2 + 1))%nat by lia.
    rewrite framebuffer_of_lookup, scanline_lookup_pixel by lia.
    by rewrite Hle, Hpix.
  - intros j Hj.
    replace (y * 2048 + 1920 + j)%nat with (y * (960 * 2 + 128) + (960 * 2 + j))%nat by lia.
    rewrite framebuffer_of_lookup, scanline_lookup_padding by lia. done.
Qed.

Lemma prepare_image_pixel_offset_red :
  ∃ l fb,
    prepare_image sample_env "tiny.png" (World ∅ []) = (World {[ l := Bytes fb ]} [], Ok l)
    ∧ fb !! (3 * 2048 + 2 * 5)%nat = Some 0x00
    ∧ fb !! (3 * 2048 + 2 * 5 + 1)%nat = Some 0xF8
    ∧ fb !! (3 * 2048 + 1920 + 7)%nat = Some 0.
Proof.
  destruct (prepare_image_pixel_offset sample_env "tiny.png" tiny_image (World ∅ []) eq_refl)
    as (l & fb & Hrun & Hpix).
  exists l, fb. split; [exact Hrun|].
  specialize (Hpix 5%nat 3%nat ltac:(lia) ltac:(lia)). cbv beta iota in Hpix.
  destruct Hpix as (Hlo & Hhi & Hpad).
  split; [exact Hlo|]. split; [exact Hhi|]. apply Hpad. lia.
Defined.

(** ** [send_frame] under any device *)

Lemma frame_calls_endpoint pattern chunk_size b :
  Forall (λ c, call_endpoint c = 0x01) (frame_calls pattern chunk_size b).
Proof.
  unfold frame_calls. constructor; [done|].
  apply Forall_fmap, Forall_forall. by intros c _.
Qed.

(** Where the sequence stops: every call before the one that raised went
    through, and when nothing was raised every call went through. *)
Lemma transmit_went_through dev calls : ∀ log,
  match (transmit dev log calls).2 with
  | None =>
      ∀ j c, calls !! j = Some c →
        write_outcome dev (log ++ take j calls) (call_endpoint c) (call_data c) = None
  | Some e =>
      ∃ k c, calls !! k = Some c
        ∧ (transmit dev log calls).1 = log ++ take (S k) calls
        ∧ (∀ j c', (j < k)%nat → calls !! j = Some c' →
             write_outcome dev (log ++ take j calls) (call_endpoint c') (call_data c') = None)
        ∧ write_outcome dev (log ++ take k calls) (call_endpoint c) (call_data c) = Some e
  end.
Proof.
  induction calls as [|c calls IH]; intros log; simpl.
  - by intros j c.
  - destruct (write_outcome dev log (call_endpoint c) (call_data c)) as [e|] eqn:He; simpl.
    + exists 0%nat, c. split; [done|]. split; [by rewrite take_0|].
      split; [intros j c' Hj; lia|]. simpl. by rewrite app_nil_r.
    + specialize (IH (log ++ [c])).
      destruct (transmit dev (log ++ [c]) calls).2 as [e|].
      * destruct IH as (k & c' & Hk & Hlog & Hbefore & Hfail).
        exists (S k), c'. split; [done|].
        split; [rewrite Hlog; by rewrite <- app_assoc|].
        split.
        -- intros [|j] c'' Hj Hc''; simpl in *.
           ++ injection Hc'' as <-. by rewrite app_nil_r.
           ++ specialize (Hbefore j c'' ltac:(lia) Hc''). by rewrite <- app_assoc in Hbefore.
        -- simpl. by rewrite <- app_assoc in Hfail.
      * intros [|j] c'' Hc''; simpl in *.
        -- injection Hc'' as <-. by rewrite app_nil_r.
        -- specialize (IH j c'' Hc''). by rewrite <- app_assoc in IH.
Qed.

(** X5.  Whatever the device does, the calls [send_frame] makes on a
    connected object are the first [m] calls of the frame, for some
    [m ≥ 1], in order and each made once: the header, then chunks; all go
    to endpoint 1.  When [send_frame] returns it has made them all and
    every one went through; when it raises, every call before the last
    went through, the last one raised, and what [send_frame] raises is
    what that call raised.  So it raises nothing of its own, never
    passes over a failed write and never goes on after one. *)
Theorem send_frame_prefix (dev : usb_device) (dbg : bool) (framebuffer : loc)
    (o : buffer) (w : world) :
  heap w !! framebuffer = Some o → is_bytes (contents o) →
  let run := send_frame (Display (Some dev) dbg) framebuffer w in
  let calls := frame_calls XOR_PATTERN CHUNK_SIZE (contents o) in
  let answer (j : nat) (c : usb_call) :=
    write_outcome dev (usb_log w ++ take j calls) (call_endpoint c) (call_data c) in
  ∃ m, (1 ≤ m ≤ length calls)%nat
    ∧ usb_log run.1 = usb_log w ++ take m calls
    ∧ Forall (λ c, call_endpoint c = 0x01) (take m calls)
    ∧ match run.2 with
      | Ok _ =>
          m = length calls
          ∧ ∀ j c, calls !! j = Some c → answer j c = None
      | Raise e =>
          (∀ j c, (j < m - 1)%nat → calls !! j = Some c → answer j c = None)
          ∧ ∃ c, calls !! (m - 1)%nat = Some c ∧ answer (m - 1)%nat c = Some e
      end.
Proof.
  intros Hfb Hb run calls answer.
  destruct (send_frame_with_calls XOR_PATTERN CHUNK_SIZE dev dbg framebuffer o w)
    as [Hlog Hres]; [done|apply XOR_PATTERN_bytes|apply CHUNK_SIZE_pos|done..|].
  fold (send_frame (Display (Some dev) dbg) framebuffer w) in Hlog, Hres.
  fold run in Hlog, Hres. fold calls in Hlog, Hres.
  pose proof (transmit_went_through dev calls (usb_log w)) as Hthrough.
  assert (Hlen : (1 ≤ length calls)%nat)
    by (unfold calls; rewrite frame_calls_length; lia).
  rewrite Hlog, Hres.
  destruct (transmit dev (usb_log w) calls).2 as [e|] eqn:Hout.
  - destruct Hthrough as (k & c & Hc & Hstop & Hbefore & Hfail).
    exists (S k). pose proof (lookup_lt_Some _ _ _ Hc) as Hk.
    split; [lia|]. split; [exact Hstop|].
    split; [apply Forall_take, frame_calls_endpoint|].
    replace (S k - 1)%nat with k by lia.
    split; [exact Hbefore|]. by exists c.
  - exists (length calls). split; [lia|].
    split; [rewrite firstn_all; by apply transmit_none|].
    split; [apply Forall_take, frame_calls_endpoint|].
    split; [reflexivity|exact Hthrough].
Qed.

Lemma send_frame_prefix_sample :
  ∃ m, (1 ≤ m ≤ 2)%nat
    ∧ usb_log (send_frame (Display (Some (fails_at 0 (USBError 19))) false) 1%positive
                 (store_of [1; 2; 3])).1
      = take m (frame_calls XOR_PATTERN CHUNK_SIZE [1; 2; 3]).
Proof.
  destruct (send_frame_prefix (fails_at 0 (USBError 19)) false 1%positive (Bytes [1; 2; 3])
              (store_of [1; 2; 3])) as (m & Hm & Hlog & _).
  - vm_compute. reflexivity.
  - unfold is_bytes, is_byte. repeat constructor; lia.
  - exists m. split; [|exact Hlog].
    rewrite frame_calls_length in Hm.
    change (chunk_count CHUNK_SIZE (length (contents (Bytes [1; 2; 3]))))
      with (chunk_count CHUNK_SIZE 3) in Hm.
    replace (chunk_count CHUNK_SIZE 3) with 1%nat in Hm by (vm_compute; reflexivity).
    exact Hm.
Defined.

(** X6.  A [send_frame] that returns has made exactly [1 + ⌈n / 16384⌉]
    calls carrying [16 + n] bytes, for a framebuffer of [n] bytes; for an
    empty framebuffer it writes the header and nothing else. *)
Theorem send_frame_call_count (dev : usb_device) (dbg : bool) (framebuffer : loc)
    (o : buffer) (w : world) :
  heap w !! framebuffer = Some o → is_bytes (contents o) →
  let run := send_frame (Display (Some dev) dbg) framebuffer w in
  let n := length (contents o) in
  run.2 = Ok tt →
  ∃ calls,
    usb_log run.1 = usb_log w ++ calls
    ∧ length calls = S ((n + Z.to_nat 16383) `div` Z.to_nat 16384)%nat
    ∧ length (concat (call_data <$> calls)) = (16 + n)%nat
    ∧ (n = 0%nat → calls = [UsbCall 0x01 FRAME_HEADER]).
Proof.
  intros Hfb Hb run n Hok.
  exists (frame_calls XOR_PATTERN CHUNK_SIZE (contents o)).
  split.
  { apply (send_frame_with_ok_log XOR_PATTERN CHUNK_SIZE dev dbg framebuffer o w
             eq_refl XOR_PATTERN_bytes CHUNK_SIZE_pos Hfb Hb Hok). }
  split; [by rewrite frame_calls_length|].
  split.
  { unfold frame_calls. cbn [fmap list_fmap concat call_data].
    change (list_fmap _ _ call_data ?l) with (call_data <$> l).
    rewrite call_data_fmap, length_app, concat_chunks, xor_bytes_length
      by apply CHUNK_SIZE_pos.
    done. }
  intros Hn. unfold frame_calls, chunks. rewrite xor_bytes_length.
  fold n. rewrite Hn, chunk_count_0 by apply CHUNK_SIZE_pos. done.
Qed.

Lemma send_frame_call_count_empty :
  usb_log (send_frame (Display (Some reliable) false) 1%positive (store_of [])).1
  = [UsbCall 0x01 FRAME_HEADER].
Proof.
  destruct (send_frame_call_count reliable false 1%positive (Bytes []) (store_of []))
    as (calls & Hlog & _ & _ & Hempty).
  - vm_compute. reflexivity.
  - constructor.
  - vm_compute. reflexivity.
  - rewrite Hlog, Hempty by reflexivity. reflexivity.
Defined.

(** ** The XOR pass and the chunks *)

Lemma xor_bytes_take pattern n b :
  xor_bytes pattern (take n b) = take n (xor_bytes pattern b).
Proof.
  apply list_eq. intros i. rewrite xor_bytes_lookup.
  destruct (decide (i < n)%nat).
  - by rewrite !lookup_take_lt, xor_bytes_lookup by done.
  - by rewrite !lookup_take_ge by lia.
Qed.

Lemma xor_bytes_drop pattern a b :
  (a `mod` 4 = 0)%nat →
  xor_bytes pattern (drop a b) = drop a (xor_bytes pattern b).
Proof.
  intros Ha. apply list_eq. intros i.
  rewrite xor_bytes_lookup, !lookup_drop, xor_bytes_lookup.
  replace ((a + i) `mod` 4)%nat with (i `mod` 4)%nat; [done|].
  rewrite <- (Nat.Div0.add_mod_idemp_l a i 4), Ha. done.
Qed.

Lemma chunk_offset_aligned k : ((k * CHUNK_SIZE) `mod` 4 = 0)%nat.
Proof.
  replace (k * CHUNK_SIZE)%nat with (k * 4096 * 4)%nat by (unfold CHUNK_SIZE; lia).
  apply Nat.Div0.mod_mul.
Qed.

Lemma encrypt_framebuffer_run data o w :
  heap w !! data = Some o → is_bytes (contents o) →
  ∃ w' l, encrypt_framebuffer data w = (w', Ok l)
          ∧ heap w' !! l = Some (Bytes (xor_bytes XOR_PATTERN (contents o))).
Proof.
  intros Hd Hb.
  pose proof (encrypt_with_run XOR_PATTERN eq_refl XOR_PATTERN_bytes data o w Hd Hb) as Hrun.
  cbv zeta in Hrun. eexists _, _. split; [exact Hrun|]. apply lookup_insert_eq.
Qed.

(** X7.  Chunk [k] of a frame that went through is the XOR pass applied
    to bytes [k * 16384 ..] of the framebuffer taken on their own: the
    chunk size is a multiple of the key length, so every chunk starts at
    key byte 0 and depends on no other part of the framebuffer. *)
Theorem send_frame_chunk_local (dev : usb_device) (dbg : bool) (framebuffer : loc)
    (o : buffer) (w : world) (k : nat) (c : usb_call) :
  heap w !! framebuffer = Some o → is_bytes (contents o) →
  let run := send_frame (Display (Some dev) dbg) framebuffer w in
  run.2 = Ok tt →
  usb_log run.1 !! (length (usb_log w) + 1 + k)%nat = Some c →
  ∀ w2 l2,
    heap w2 !! l2 = Some (Bytes (take CHUNK_SIZE (drop (k * CHUNK_SIZE) (contents o)))) →
    ∃ w3 l3, encrypt_framebuffer l2 w2 = (w3, Ok l3)
             ∧ heap w3 !! l3 = Some (Bytes (call_data c)).
Proof.
  intros Hfb Hb run Hok Hc w2 l2 Hl2.
  unfold run, send_frame in Hc.
  rewrite (send_frame_with_ok_log XOR_PATTERN CHUNK_SIZE dev dbg framebuffer o w
             eq_refl XOR_PATTERN_bytes CHUNK_SIZE_pos Hfb Hb Hok) in Hc.
  unfold frame_calls in Hc.
  rewrite lookup_app_r in Hc by lia.
  replace (length (usb_log w) + 1 + k - length (usb_log w))%nat with (S k) in Hc by lia.
  rewrite lookup_cons in Hc.
  apply list_lookup_fmap_Some_1 in Hc as (d & -> & Hd). cbn [call_data].
  pose proof (lookup_lt_Some _ _ _ Hd) as Hk. rewrite chunks_length in Hk.
  rewrite chunks_lookup in Hd by done. injection Hd as <-.
  destruct (encrypt_framebuffer_run l2 _ w2 Hl2) as (w3 & l3 & Hrun & Hl3).
  { cbn [contents]. by apply Forall_take, Forall_drop. }
  exists w3, l3. split; [done|]. rewrite Hl3. cbn [contents].
  rewrite xor_bytes_take, xor_bytes_drop by apply chunk_offset_aligned.
  reflexivity.
Qed.

Lemma send_frame_chunk_local_sample :
  ∃ w3 l3,
    encrypt_framebuffer 1%positive (store_of [1; 2; 3; 4; 5; 6]) = (w3, Ok l3)
    ∧ heap w3 !! l3 = Some (Bytes [0xE6; 0xF1; 0xE4; 0xFB; 0xE2; 0xF5]).
Proof.
  apply (send_frame_chunk_local reliable false 1%positive (Bytes [1; 2; 3; 4; 5; 6])
           (store_of [1; 2; 3; 4; 5; 6]) 0
           (UsbCall 1 [0xE6; 0xF1; 0xE4; 0xFB; 0xE2; 0xF5])).
  - vm_compute. reflexivity.
  - unfold is_bytes, is_byte. repeat constructor; lia.
  - vm_compute. reflexivity.
  - vm_compute. reflexivity.
  - vm_compute. reflexivity.
Defined.

(** X8.  What went over the wire can be undone: the payload bytes of a
    frame that went through, put together in the order written and passed
    through [encrypt_framebuffer], are the bytes of the framebuffer. *)
Theorem send_frame_payload_decodes (dev : usb_device) (dbg : bool) (framebuffer : loc)
    (o : buffer) (w : world) :
  heap w !! framebuffer = Some o → is_bytes (contents o) →
  let run := send_frame (Display (Some dev) dbg) framebuffer w in
  run.2 = Ok tt →
  ∀ w2 l2,
    heap w2 !! l2
      = Some (Bytes (concat (call_data <$> drop (S (length (usb_log w))) (usb_log run.1)))) →
    ∃ w3 l3, encrypt_framebuffer l2 w2 = (w3, Ok l3)
             ∧ heap w3 !! l3 = Some (Bytes (contents o)).
Proof.
  intros Hfb Hb run Hok w2 l2 Hl2.
  unfold run, send_frame in Hl2.
  rewrite (send_frame_with_ok_log XOR_PATTERN CHUNK_SIZE dev dbg framebuffer o w
             eq_refl XOR_PATTERN_bytes CHUNK_SIZE_pos Hfb Hb Hok) in Hl2.
  unfold frame_calls in Hl2.
  rewrite cons_middle, app_assoc, drop_app_length' in Hl2
    by (rewrite length_app; cbn [length]; lia).
  rewrite call_data_fmap, concat_chunks in Hl2 by apply CHUNK_SIZE_pos.
  destruct (encrypt_framebuffer_run l2 _ w2 Hl2) as (w3 & l3 & Hrun & Hl3).
  { cbn [contents]. by apply xor_bytes_is_bytes; [|apply XOR_PATTERN_bytes|]. }
  exists w3, l3. split; [done|]. rewrite Hl3. cbn [contents].
  by rewrite xor_bytes_involutive.
Qed.

Lemma send_frame_payload_decodes_sample :
  ∃ w3 l3,
    encrypt_framebuffer 1%positive (store_of [0xE6; 0xF1; 0xE4; 0xFB; 0xE2; 0xF5]) = (w3, Ok l3)
    ∧ heap w3 !! l3 = Some (Bytes [1; 2; 3; 4; 5; 6]).
Proof.
  apply (send_frame_payload_decodes reliable false 1%positive (Bytes [1; 2; 3; 4; 5; 6])
           (store_of [1; 2; 3; 4; 5; 6])).
  - vm_compute. reflexivity.
  - unfold is_bytes, is_byte. repeat constructor; lia.
  - vm_compute. reflexivity.
  - vm_compute. reflexivity.
Defined.

(** ** [display_image] and [connect] *)

Lemma display_image_fails env self path e w :
  image_file env path = Raise e → display_image env self path w = (w, Raise e).
Proof.
  intros Hopen. unfold display_image.
  by rewrite (bind_raise _ _ _ _ _ (prepare_image_fails env path e w Hopen)).
Qed.

(** X9.  [display_image] opens and converts the image before it looks at
    the connection.  A file that does not open makes it raise that error,
    connected or not, with nothing changed; with a file that opens and no
    device handle, the framebuffer is built and stored first and only then
    is "Device not connected" raised.  Nothing is written in either
    case. *)
Theorem display_image_opens_first (env : environment) (self : Push3Display)
    (path : string) (w : world) :
  (∀ e, image_file env path = Raise e → display_image env self path w = (w, Raise e))
  ∧ (∀ raw, image_file env path = Ok raw → device self = None →
       ∃ l fb,
         display_image env self path w =
           (World (<[l := Bytes fb]> (heap w)) (usb_log w),
            Raise (RuntimeError "Device not connected. Call connect() first."))
         ∧ heap w !! l = None
         ∧ length fb = Z.to_nat 327680).
Proof.
  split.
  - intros e Hopen. by apply display_image_fails.
  - intros raw Hopen Hdev. rewrite (display_image_run env self path raw w Hopen).
    unfold send_frame. rewrite send_frame_with_not_connected by done.
    eexists _, _. split; [reflexivity|]. split; [apply fresh_lookup|].
    rewrite framebuffer_of_length. apply frame_size.
Qed.

Lemma display_image_opens_first_sample :
  display_image no_file_env (init false) "missing.png" (World ∅ [])
  = (World ∅ [], Raise (OSError 2)).
Proof.
  destruct (display_image_opens_first no_file_env (init false) "missing.png" (World ∅ []))
    as [Hfail _].
  apply Hfail. reflexivity.
Defined.

(** X10.  For an image that opens, whatever its size, a [display_image]
    that returns has written the header and then the 20 chunks of 16,384
    bytes of the obfuscated framebuffer of the resized image: 21 calls in
    all. *)
Theorem display_image_sends_frame (env : environment) (dev : usb_device) (dbg : bool)
    (path : string) (raw : image raw_pixel) (w : world) :
  image_file env path = Ok raw →
  let run := display_image env (Display (Some dev) dbg) path w in
  let img := Image_convert_RGB env (Image_resize env raw (DISPLAY_WIDTH, DISPLAY_HEIGHT)) in
  let cs := chunks CHUNK_SIZE
              (xor_bytes XOR_PATTERN
                 (framebuffer_of DISPLAY_WIDTH DISPLAY_HEIGHT LINE_PADDING img)) in
  run.2 = Ok tt →
  usb_log run.1 = usb_log w ++ UsbCall 0x01 FRAME_HEADER :: (UsbCall 0x01 <$> cs)
  ∧ length cs = 20%nat
  ∧ Forall (λ c, length c = Z.to_nat 16384) cs.
Proof.
  intros Hopen run img cs Hok. unfold run in *.
  rewrite (display_image_run env _ path raw w Hopen) in *.
  fold img in Hok |- *. set (fb := framebuffer_of _ _ _ img) in *.
  set (l := fresh (dom (heap w))) in *.
  set (w1 := World (<[l := Bytes fb]> (heap w)) (usb_log w)) in *.
  assert (Hl : heap w1 !! l = Some (Bytes fb)) by apply lookup_insert_eq.
  assert (Hb : is_bytes (contents (Bytes fb))) by apply framebuffer_of_bytes.
  split.
  { apply (send_frame_with_ok_log XOR_PATTERN CHUNK_SIZE dev dbg l (Bytes fb) w1
             eq_refl XOR_PATTERN_bytes CHUNK_SIZE_pos Hl Hb Hok). }
  apply chunks_full_frame. rewrite xor_bytes_length. unfold fb.
  rewrite framebuffer_of_length. apply frame_size.
Qed.

Lemma display_image_sends_frame_tiny :
  ∃ cs, usb_log (display_image sample_env (Display (Some reliable) false) "tiny.png"
                   (World ∅ [])).1
        = UsbCall 0x01 FRAME_HEADER :: (UsbCall 0x01 <$> cs)
        ∧ length cs = 20%nat.
Proof.
  destruct (display_image_sends_frame sample_env reliable false "tiny.png" tiny_image
              (World ∅ []) eq_refl) as (Hlog & Hlen & _).
  - apply (display_image_reliable sample_env false "tiny.png" tiny_image (World ∅ []) eq_refl).
  - eexists. split; [exact Hlog|exact Hlen].
Defined.

(** X11.  A device that is found but cannot be configured makes [connect]
    raise "Failed to configure device" and yet stay assigned to the
    object: a following [send_frame] does not raise "Device not
    connected", it writes the header to that device. *)
Theorem connect_unconfigured_then_send (env : environment) (self : Push3Display)
    (dev : usb_device) (e : exn) (framebuffer : loc) (o : buffer) (w : world) :
  usb_find env VENDOR_ID PRODUCT_ID = Some dev →
  set_configuration env dev = Some e →
  heap w !! framebuffer = Some o → is_bytes (contents o) →
  (connect env self).2
    = Raise (RuntimeError ("Failed to configure device: " ++ exn_text env e))
  ∧ ∃ rest, usb_log (send_frame (connect env self).1 framebuffer w).1
            = usb_log w ++ UsbCall 0x01 FRAME_HEADER :: rest.
Proof.
  intros Hfind Hconf Hfb Hb.
  destruct (connect_unconfigured env self dev e Hfind Hconf) as [Hdev Hres].
  split; [done|].
  assert (Hself : (connect env self).1 = Display (Some dev) (debug self))
    by (unfold connect; simpl; by rewrite Hfind, Hconf).
  rewrite Hself.
  destruct (send_frame_with_calls XOR_PATTERN CHUNK_SIZE dev (debug self) framebuffer o w)
    as [Hlog _]; [done|apply XOR_PATTERN_bytes|apply CHUNK_SIZE_pos|done..|].
  unfold send_frame. rewrite Hlog. apply transmit_header.
Qed.

Lemma connect_unconfigured_then_send_sample :
  (connect unconfigured_env (init false)).2
    = Raise (RuntimeError "Failed to configure device: Access denied")
  ∧ ∃ rest, usb_log (send_frame (connect unconfigured_env (init false)).1 1%positive
                       (store_of [1; 2; 3])).1
            = UsbCall 0x01 FRAME_HEADER :: rest.
Proof.
  apply (connect_unconfigured_then_send unconfigured_env (init false) reliable (USBError 13)
           1%positive (Bytes [1; 2; 3]) (store_of [1; 2; 3])).
  - reflexivity.
  - reflexivity.
  - vm_compute. reflexivity.
  - unfold is_bytes, is_byte. repeat constructor; lia.
Defined.

(** X12.  [connect] does not keep an earlier handle: when the device is
    not found, an object that was connected before is left without a
    handle, [connect] raises "Push 3 device not found", and a following
    [send_frame] raises "Device not connected" and writes nothing. *)
Theorem connect_drops_handle (env : environment) (old : usb_device) (dbg : bool)
    (framebuffer : loc) (w : world) :
  usb_find env VENDOR_ID PRODUCT_ID = None →
  (connect env (Display (Some old) dbg)).2
    = Raise (RuntimeError "Push 3 device not found. Make sure it's connected via USB.")
  ∧ send_frame (connect env (Display (Some old) dbg)).1 framebuffer w
    = (w, Raise (RuntimeError "Device not connected. Call connect() first.")).
Proof.
  intros Hfind.
  destruct (connect_not_found env (Display (Some old) dbg) Hfind) as [Hdev Hres].
  split; [done|]. by apply send_frame_with_not_connected.
Qed.

Lemma connect_drops_handle_sample :
  send_frame (connect empty_bus_env (Display (Some reliable) false)).1 1%positive
    (store_of [1; 2; 3])
  = (store_of [1; 2; 3], Raise (RuntimeError "Device not connected. Call connect() first.")).
Proof.
  apply (connect_drops_handle empty_bus_env reliable false 1%positive (store_of [1; 2; 3])).
  reflexivity.
Defined.

(** ** The renderer *)

Lemma display_image_calls env dev dbg path raw w :
  image_file env path = Ok raw →
  let img := Image_convert_RGB env (Image_resize env raw (DISPLAY_WIDTH, DISPLAY_HEIGHT)) in
  let fb := framebuffer_of DISPLAY_WIDTH DISPLAY_HEIGHT LINE_PADDING img in
  let run := display_image env (Display (Some dev) dbg) path w in
  let tr := transmit dev (usb_log w) (frame_calls XOR_PATTERN CHUNK_SIZE fb) in
  usb_log run.1 = tr.1
  ∧ run.2 = match tr.2 with None => Ok tt | Some e => Raise e end.
Proof.
  intros Hopen img fb run tr. unfold run.
  rewrite (display_image_run env _ path raw w Hopen). fold img. fold fb.
  set (l := fresh (dom (heap w))).
  set (w1 := World (<[l := Bytes fb]> (heap w)) (usb_log w)).
  assert (Hl : heap w1 !! l = Some (Bytes fb)) by apply lookup_insert_eq.
  apply (send_frame_with_calls XOR_PATTERN CHUNK_SIZE dev dbg l (Bytes fb) w1
           eq_refl XOR_PATTERN_bytes CHUNK_SIZE_pos Hl).
  apply framebuffer_of_bytes.
Qed.

Lemma renderer_unfold renv img st :
  save_error renv = None →
  renderer_display_image renv img st =
    let fs := <[temp_path renv := ImageFile img]> (files st) in
    let c := connect (r_env renv) (display st) in
    let r := match c.2 with
             | Ok _ => display_image (env_on (r_env renv) fs) c.1 (temp_path renv) (rworld st)
             | Raise e => (rworld st, Raise e)
             end in
    (RendererState (delete (temp_path renv) (files st)) c.1 r.1, r.2).
Proof.
  intros Hsave. unfold renderer_display_image. rewrite Hsave. cbv zeta.
  destruct (connect (r_env renv) (display st)) as [d c] eqn:Hc. cbn [fst snd].
  rewrite lookup_insert_eq, decide_True by done. rewrite delete_insert_eq.
  by destruct c as [[]|e]; [destruct (display_image _ _ _ _)|].
Qed.

(** X13.  Once the image is saved, [display_image] of the renderer
    leaves no temporary file behind, whether it returns or raises, for a
    missing device, a device that cannot be configured or a write that
    fails; a file that had that name before the call is gone as well, and
    no other file is touched.  The clean-up does not cover the save
    itself: a save that raises is passed on with the display object and
    its world untouched and no other file touched, and what the failed
    save left under the name, a truncated file in place of an earlier one
    for instance, stays on disk.  That is the only way a file of that
    name outlives the call. *)
Theorem renderer_removes_temp_file (renv : renderer_env) (img : image raw_pixel)
    (st : renderer_state) :
  let res := renderer_display_image renv img st in
  (save_error renv = None → files res.1 = delete (temp_path renv) (files st))
  ∧ (∀ f, save_error renv = Some f →
       res.2 = Raise (save_exn f)
       ∧ display res.1 = display st
       ∧ rworld res.1 = rworld st
       ∧ files res.1 !! temp_path renv = save_leaves f (files st !! temp_path renv)
       ∧ ∀ p, p ≠ temp_path renv → files res.1 !! p = files st !! p)
  ∧ (is_Some (files res.1 !! temp_path renv) ↔
       ∃ f, save_error renv = Some f
            ∧ is_Some (save_leaves f (files st !! temp_path renv))).
Proof.
  intros res. unfold res. split; [|split].
  - intros Hsave. by rewrite renderer_unfold.
  - intros f Hsave. unfold renderer_display_image. rewrite Hsave. cbn [fst snd files display rworld].
    split; [done|]. split; [done|]. split; [done|].
    split; [apply lookup_partial_alter_eq|].
    intros p Hp. by apply lookup_partial_alter_ne.
  - destruct (save_error renv) as [f|] eqn:Hsave.
    + unfold renderer_display_image. rewrite Hsave. cbn [fst files].
      rewrite lookup_partial_alter_eq. split.
      * intros Hleft. by exists f.
      * by intros (f' & [= <-] & Hleft).
    + rewrite renderer_unfold by done. cbv zeta. cbn [fst files].
      rewrite lookup_delete_eq. split.
      * by intros [? ?].
      * by intros (f & ? & _).
Qed.

Lemma renderer_removes_temp_file_sample :
  files (renderer_display_image (RendererEnv empty_bus_env None "temp_display.png")
           tiny_image
           (RendererState {[ "temp_display.png"%string := ImageFile tiny_image ]}
              (init false) (World ∅ []))).1
  = ∅
  ∧ files (renderer_display_image
             (RendererEnv sample_env
                (Some (SaveFailure (OSError 28) (λ _, Some (Unreadable (OSError 0)))))
                "temp_display.png")
             tiny_image
             (RendererState {[ "temp_display.png"%string := ImageFile tiny_image ]}
                (init false) (World ∅ []))).1
      !! "temp_display.png"%string
    = Some (Unreadable (OSError 0)).
Proof.
  split.
  - destruct (renderer_removes_temp_file (RendererEnv empty_bus_env None "temp_display.png")
                tiny_image
                (RendererState {[ "temp_display.png"%string := ImageFile tiny_image ]}
                   (init false) (World ∅ []))) as [Hfiles _].
    rewrite Hfiles by reflexivity. cbn [files temp_path]. apply delete_singleton_eq.
  - destruct (renderer_removes_temp_file
                (RendererEnv sample_env
                   (Some (SaveFailure (OSError 28) (λ _, Some (Unreadable (OSError 0)))))
                   "temp_display.png")
                tiny_image
                (RendererState {[ "temp_display.png"%string := ImageFile tiny_image ]}
                   (init false) (World ∅ []))) as (_ & Hfail & _).
    destruct (Hfail _ eq_refl) as (_ & _ & _ & Hleft & _). exact Hleft.
Defined.

(** X14.  The renderer connects anew on every call and sends the image it
    was given: with the device found and configured, the calls on the
    endpoint and the outcome are those of transmitting the frame of that
    image, resized and converted, to the device just found, whatever
    handle the object held before. *)
Theorem renderer_sends_given_image (renv : renderer_env) (img : image raw_pixel)
    (st : renderer_state) (dev : usb_device) :
  save_error renv = None →
  usb_find (r_env renv) VENDOR_ID PRODUCT_ID = Some dev →
  set_configuration (r_env renv) dev = None →
  let res := renderer_display_image renv img st in
  let rgb := Image_convert_RGB (r_env renv)
               (Image_resize (r_env renv) img (DISPLAY_WIDTH, DISPLAY_HEIGHT)) in
  let fb := framebuffer_of DISPLAY_WIDTH DISPLAY_HEIGHT LINE_PADDING rgb in
  let tr := transmit dev (usb_log (rworld st)) (frame_calls XOR_PATTERN CHUNK_SIZE fb) in
  device (display res.1) = Some dev
  ∧ usb_log (rworld res.1) = tr.1
  ∧ res.2 = match tr.2 with None => Ok tt | Some e => Raise e end.
Proof.
  intros Hsave Hfind Hconf res rgb fb tr. unfold res.
  rewrite renderer_unfold by done. cbv zeta.
  assert (Hc : connect (r_env renv) (display st)
               = (Display (Some dev) (debug (display st)), Ok tt))
    by (unfold connect; simpl; by rewrite Hfind, Hconf).
  rewrite Hc. cbn [fst snd display rworld].
  split; [done|].
  apply (display_image_calls
           (env_on (r_env renv) (<[temp_path renv := ImageFile img]> (files st)))
           dev (debug (display st)) (temp_path renv) img (rworld st)).
  cbn [image_file env_on]. by rewrite lookup_insert_eq.
Qed.

Lemma renderer_sends_given_image_sample :
  (renderer_display_image (RendererEnv sample_env None "temp_display.png") tiny_image
     (RendererState ∅ (init false) (World ∅ []))).2 = Ok tt.
Proof.
  destruct (renderer_sends_given_image (RendererEnv sample_env None "temp_display.png")
              tiny_image (RendererState ∅ (init false) (World ∅ [])) reliable)
    as (_ & _ & Hres); [reflexivity..|].
  rewrite Hres, transmit_reliable. cbn [snd]. reflexivity.
Defined.

(** X15.  When [connect] raises inside the renderer, for a missing device
    or for one that cannot be configured, the image is never opened and
    nothing is written: the renderer passes the error of [connect] on,
    with the world of the display as it was. *)
Theorem renderer_connect_failure (renv : renderer_env) (img : image raw_pixel)
    (st : renderer_state) (e : exn) :
  save_error renv = None →
  (connect (r_env renv) (display st)).2 = Raise e →
  (renderer_display_image renv img st).2 = Raise e
  ∧ rworld (renderer_display_image renv img st).1 = rworld st.
Proof.
  intros Hsave Hc. rewrite renderer_unfold by done. cbv zeta. by rewrite Hc.
Qed.

Lemma renderer_connect_failure_sample :
  (renderer_display_image (RendererEnv unconfigured_env None "temp_display.png") tiny_image
     (RendererState ∅ (init false) (World ∅ []))).2
  = Raise (RuntimeError "Failed to configure device: Access denied")
  ∧ rworld (renderer_display_image (RendererEnv unconfigured_env None "temp_display.png")
              tiny_image (RendererState ∅ (init false) (World ∅ []))).1
    = World ∅ [].
Proof.
  apply (renderer_connect_failure (RendererEnv unconfigured_env None "temp_display.png")
           tiny_image (RendererState ∅ (init false) (World ∅ []))); reflexivity.
Defined.

(** ** [main] of the display tool *)





(** * The MIDI monitor *)

(** X17.  Notes 36 to 99 are reported as pads of an 8 by 8 grid: the row
    and the column printed are both between 1 and 8 and determine the
    note, [note = 36 + 8 * (row - 1) + (col - 1)]; any other note is
    reported by its number alone.  Note-on and note-off messages are
    treated alike. *)
Theorem format_note_message_grid (msg : Midi.message) (channel note velocity : Z)
    (timestamp state : string) :
  msg = Midi.NoteOn channel note velocity ∨ msg = Midi.NoteOff channel note velocity →
  (36 ≤ note ≤ 99 →
     ∃ row col,
       1 ≤ row ≤ 8 ∧ 1 ≤ col ≤ 8 ∧ note = 36 + 8 * (row - 1) + (col - 1)
       ∧ Monitor.format_note_message msg timestamp state
         = Midi.Return (timestamp ++ " | PAD: Row " ++ Midi.str row ++ ", Col " ++ Midi.str col
                          ++ " (note " ++ Midi.str note ++ ") " ++ state ++ " vel:"
                          ++ Midi.str velocity)%string)
  ∧ (¬ 36 ≤ note ≤ 99 →
       Monitor.format_note_message msg timestamp state
       = Midi.Return (timestamp ++ " | NOTE: " ++ Midi.str note ++ " " ++ state ++ " vel:"
                        ++ Midi.str velocity)%string).
Proof.
  intros Hmsg. split.
  - intros Hnote. exists ((note - 36) `div` 8 + 1), ((note - 36) `mod` 8 + 1).
    pose proof (Z.div_mod (note - 36) 8 ltac:(lia)) as Hdm.
    pose proof (Z.mod_pos_bound (note - 36) 8 ltac:(lia)) as Hm.
    assert (0 ≤ (note - 36) `div` 8 ≤ 7)
      by (split; [apply Z.div_pos; lia|apply Z.lt_succ_r, Z.div_lt_upper_bound; lia]).
    split; [lia|]. split; [lia|]. split; [lia|].
    destruct Hmsg as [-> | ->]; unfold Monitor.format_note_message;
      by rewrite decide_True by done.
  - intros Hnote.
    destruct Hmsg as [-> | ->]; unfold Monitor.format_note_message;
      by rewrite decide_False by done.
Qed.

Lemma format_note_message_grid_sample :
  ∃ row col,
    1 ≤ row ≤ 8 ∧ 1 ≤ col ≤ 8 ∧ 60 = 36 + 8 * (row - 1) + (col - 1)
    ∧ Monitor.format_note_message (Midi.NoteOn 0 60 100) "12:00:00.000" "ON"
      = Midi.Return ("12:00:00.000" ++ " | PAD: Row " ++ Midi.str row ++ ", Col "
                       ++ Midi.str col ++ " (note " ++ Midi.str 60 ++ ") " ++ "ON" ++ " vel:"
                       ++ Midi.str 100)%string.
Proof.
  apply (format_note_message_grid (Midi.NoteOn 0 60 100) 0 60 100 "12:00:00.000" "ON").
  - by left.
  - lia.
Defined.

(** X18.  The table of button names comes before every later table: a
    control change on any control of [CC_BUTTON_NAMES] other than 111 is
    reported as that button, pressed when the value is positive.  Controls
    3, 10 and 11 are in the table although the encoder-touch and the
    special-touch tables list them too, so touching encoder 4, the swing
    encoder or the jog wheel is never reported as a touch. *)
Theorem format_cc_message_button_first (channel cc value : Z) (timestamp name : string) :
  Monitor.CC_BUTTON_NAMES !! cc = Some name → cc ≠ 111 →
  Monitor.format_cc_message (Midi.ControlChange channel cc value) timestamp
    = Midi.Return (timestamp ++ " | BUTTON: " ++ name ++ " (" ++ Midi.str cc ++ ") "
                     ++ (if decide (0 < value) then "PRESSED" else "RELEASED")
                     ++ " (vel: " ++ Midi.str value ++ ")")%string
  ∧ (3 ∈ Monitor.ENCODER_TOUCH_CCS ∧ Monitor.CC_BUTTON_NAMES !! 3 = Some "Tap Tempo"%string)
  ∧ (is_Some (Monitor.SPECIAL_TOUCH_CCS !! 10)
     ∧ Monitor.CC_BUTTON_NAMES !! 10 = Some "Swing/Tempo"%string)
  ∧ (is_Some (Monitor.SPECIAL_TOUCH_CCS !! 11)
     ∧ Monitor.CC_BUTTON_NAMES !! 11 = Some "Jogwheel"%string).
Proof.
  intros Hname Hne. split.
  - unfold Monitor.format_cc_message. rewrite decide_False by done.
    destruct (decide (cc = 93)) as [->|]; [by vm_compute in Hname|].
    destruct (decide (cc = 95)) as [->|]; [by vm_compute in Hname|].
    by rewrite Hname.
  - split; [split; [apply elem_of_seqZ; lia|reflexivity]|].
    split; (split; [by eexists|reflexivity]).
Qed.

Lemma format_cc_message_button_first_tap_tempo :
  Monitor.format_cc_message (Midi.ControlChange 0 3 127) "t"
  = Midi.Return "t | BUTTON: Tap Tempo (3) PRESSED (vel: 127)"%string.
Proof.
  destruct (format_cc_message_button_first 0 3 127 "t" "Tap Tempo") as [Hline _].
  - reflexivity.
  - lia.
  - rewrite Hline. reflexivity.
Defined.

(** X19.  A SysEx that starts with the manufacturer and the device bytes
    [00 21 1D 01 01] is reported as a Push 3 command, the sixth byte
    printed as two hexadecimal digits, when it has a sixth byte; when it
    is those five bytes and nothing more, [format_sysex_message] raises
    [ValueError] instead of returning a line. *)
Theorem format_sysex_message_push3 (data : list Z) (timestamp : string) :
  take 5 data = Midi.MANUFACTURER_ID ++ Midi.DEVICE_ID →
  (length data = 5%nat →
     Monitor.format_sysex_message (Midi.Sysex data) timestamp = Midi.Raised Midi.ValueError)
  ∧ (∀ command, data !! 5%nat = Some command →
       Monitor.format_sysex_message (Midi.Sysex data) timestamp
       = Midi.Return (timestamp ++ " | SYSEX: Push 3 command 0x" ++ Midi.format_02X command
                        ++ " (len: " ++ Midi.str (Z.of_nat (length data)) ++ ")")%string).
Proof.
  intros Hhead.
  assert (Hlen : (5 ≤ length data)%nat).
  { apply (f_equal length) in Hhead. rewrite length_take in Hhead.
    change (length (Midi.MANUFACTURER_ID ++ Midi.DEVICE_ID)) with 5%nat in Hhead. lia. }
  assert (H3 : take 3 data = Midi.MANUFACTURER_ID).
  { apply (f_equal (take 3)) in Hhead. rewrite take_take in Hhead. exact Hhead. }
  assert (H2 : take 2 (drop 3 data) = Midi.DEVICE_ID).
  { rewrite take_drop_commute. change (3 + 2)%nat with 5%nat. by rewrite Hhead. }
  unfold Monitor.format_sysex_message.
  rewrite (bool_decide_eq_true_2 (3 ≤ length data)%nat) by lia.
  rewrite (bool_decide_eq_true_2 _ H3), (bool_decide_eq_true_2 (5 ≤ length data)%nat) by lia.
  rewrite (bool_decide_eq_true_2 _ H2). cbn [andb]. split.
  - intros H5. by rewrite bool_decide_eq_false_2 by lia.
  - intros command Hc. pose proof (lookup_lt_Some _ _ _ Hc).
    by rewrite bool_decide_eq_true_2, Hc by lia.
Qed.

Lemma format_sysex_message_push3_bare :
  Monitor.format_sysex_message (Midi.Sysex [0x00; 0x21; 0x1D; 0x01; 0x01]) "t"
  = Midi.Raised Midi.ValueError.
Proof.
  apply (format_sysex_message_push3 [0x00; 0x21; 0x1D; 0x01; 0x01] "t"); reflexivity.
Defined.

(** * The MIDI controller *)

Lemma deliver_app p ms1 : ∀ sent ms2,
  deliver p sent (ms1 ++ ms2) =
    match (deliver p sent ms1).2 with
    | None => deliver p (sent ++ ms1) ms2
    | Some e => deliver p sent ms1
    end.
Proof.
  induction ms1 as [|m ms1 IH]; intros sent ms2; simpl.
  - by rewrite app_nil_r.
  - destruct (Midi.send_outcome p sent m); [done|].
    rewrite IH. by rewrite <- app_assoc.
Qed.

Lemma deliver_none p ms : ∀ sent,
  (deliver p sent ms).2 = None → (deliver p sent ms).1 = sent ++ ms.
Proof.
  induction ms as [|m ms IH]; intros sent; simpl.
  - by rewrite app_nil_r.
  - destruct (Midi.send_outcome p sent m); [done|].
    intros H. rewrite IH by done. by rewrite <- app_assoc.
Qed.

Lemma deliver_log_none p ms sent :
  (deliver p sent ms).2 = None → deliver p sent ms = (sent ++ ms, None).
Proof.
  intros H. pose proof (deliver_none p ms sent H).
  destruct (deliver p sent ms) as [l r]. simpl in *. by subst.
Qed.

Lemma emits_returns c p ms sent :
  emits c p ms → (c sent).2 = Midi.Return tt → (c sent).1 = sent ++ ms.
Proof.
  intros Hc Hret. rewrite Hc in *. simpl in *. apply deliver_none.
  by destruct (deliver p sent ms).2.
Qed.

Lemma emits_seq c1 c2 p ms1 ms2 :
  emits c1 p ms1 → emits c2 p ms2 →
  emits (Controller.mbind c1 (λ _, c2)) p (ms1 ++ ms2).
Proof.
  intros H1 H2 sent. unfold Controller.mbind. rewrite H1, deliver_app.
  destruct (deliver p sent ms1).2 as [e|] eqn:He.
  - by rewrite He.
  - rewrite H2. by rewrite (deliver_none p ms1 sent He).
Qed.

Lemma emits_nil p : emits (Controller.mret tt) p [].
Proof. by intros sent. Qed.

Lemma emits_for_each {A} (xs : list A) (body : A → Controller.MM unit) p
    (f : A → list Midi.message) :
  (∀ x, x ∈ xs → emits (body x) p (f x)) →
  emits (Controller.for_each xs body) p (concat (f <$> xs)).
Proof.
  induction xs as [|x xs IH]; intros Hbody; simpl.
  - apply emits_nil.
  - apply emits_seq.
    + apply Hbody. by left.
    + apply IH. intros y Hy. apply Hbody. by right.
Qed.

Lemma emits_send self p msg :
  Controller.output_port self = Some p →
  emits (Controller.output_send self msg) p [msg].
Proof.
  intros Hp sent. unfold Controller.output_send. rewrite Hp. unfold Midi.send. simpl.
  by destruct (Midi.send_outcome p sent msg).
Qed.

Lemma data_byte_spec v : Midi.data_byte v = true ↔ 0 ≤ v ≤ 127.
Proof. unfold Midi.data_byte. rewrite andb_true_iff, !Z.leb_le. tauto. Qed.

Lemma emits_set_button_led self p cc color :
  Controller.output_port self = Some p → 0 ≤ cc ≤ 127 → 0 ≤ color ≤ 127 →
  emits (Controller.set_button_led self cc color) p [Midi.ControlChange 0 cc color].
Proof.
  intros Hp Hcc Hcol sent. unfold Controller.set_button_led, Midi.Message_control_change.
  rewrite (proj2 (data_byte_spec cc) Hcc), (proj2 (data_byte_spec color) Hcol).
  simpl. unfold Controller.mbind, Controller.mret. by rewrite (emits_send self p _ Hp).
Qed.

Lemma emits_set_pad_led self p note color :
  Controller.output_port self = Some p → 0 ≤ note ≤ 127 → 0 ≤ color ≤ 127 →
  emits (Controller.set_pad_led self note color) p [Midi.NoteOn 0 note color].
Proof.
  intros Hp Hn Hcol sent. unfold Controller.set_pad_led, Midi.Message_note_on.
  rewrite (proj2 (data_byte_spec note) Hn), (proj2 (data_byte_spec color) Hcol).
  simpl. unfold Controller.mbind, Controller.mret. by rewrite (emits_send self p _ Hp).
Qed.

(** *** The state of the LEDs *)

Lemma button_led_app ms1 ms2 cc :
  button_led (ms1 ++ ms2) cc
  = match button_led ms2 cc with Some v => Some v | None => button_led ms1 cc end.
Proof.
  induction ms1 as [|m ms1 IH]; simpl; [by destruct (button_led ms2 cc)|].
  rewrite IH. by destruct (button_led ms2 cc).
Qed.

Lemma pad_led_app ms1 ms2 note :
  pad_led (ms1 ++ ms2) note
  = match pad_led ms2 note with Some v => Some v | None => pad_led ms1 note end.
Proof.
  induction ms1 as [|m ms1 IH]; simpl; [by destruct (pad_led ms2 note)|].
  rewrite IH. by destruct (pad_led ms2 note).
Qed.

Lemma button_led_Some ms cc v :
  button_led ms cc = Some v → ∃ ch, Midi.ControlChange ch cc v ∈ ms.
Proof.
  induction ms as [|m ms IH]; simpl; [done|].
  destruct (button_led ms cc) as [v'|] eqn:Hrest.
  - intros [= ->]. destruct (IH eq_refl) as [ch Hch]. exists ch. by right.
  - destruct m as [ch c v'| | | |]; try done.
    case_decide as Hc; [|done]. intros [= ->]. subst c. exists ch. by left.
Qed.

Lemma pad_led_Some ms note v :
  pad_led ms note = Some v → ∃ ch, Midi.NoteOn ch note v ∈ ms.
Proof.
  induction ms as [|m ms IH]; simpl; [done|].
  destruct (pad_led ms note) as [v'|] eqn:Hrest.
  - intros [= ->]. destruct (IH eq_refl) as [ch Hch]. exists ch. by right.
  - destruct m as [|ch n v'| | |]; try done.
    case_decide as Hc; [|done]. intros [= ->]. subst n. exists ch. by left.
Qed.

Lemma leaves_darkb_spec ms : leaves_darkb ms = true → leaves_dark ms.
Proof.
  unfold leaves_darkb. rewrite forallb_forall. intros Hall. split.
  - intros cc v Hv. destruct (button_led_Some ms cc v Hv) as [ch Hin].
    apply list_elem_of_In, Hall in Hin. apply bool_decide_eq_true_1 in Hin. congruence.
  - intros note v Hv. destruct (pad_led_Some ms note v Hv) as [ch Hin].
    apply list_elem_of_In, Hall in Hin. apply bool_decide_eq_true_1 in Hin. congruence.
Qed.

Lemma button_led_off_all (xs : list Z) cc :
  button_led ((λ c, Midi.ControlChange 0 c Controller.OFF) <$> xs) cc
  = if bool_decide (cc ∈ xs) then Some Controller.OFF else None.
Proof.
  induction xs as [|x xs IH]; [done|]. rewrite fmap_cons. cbn [button_led]. rewrite IH.
  destruct (bool_decide (cc ∈ xs)) eqn:Hin.
  - apply bool_decide_eq_true_1 in Hin. rewrite bool_decide_eq_true_2; [done|by right].
  - apply bool_decide_eq_false_1 in Hin. case_decide as Hx.
    + subst. rewrite bool_decide_eq_true_2; [done|by left].
    + rewrite bool_decide_eq_false_2; [done|]. intros [->|?]%elem_of_cons; done.
Qed.

Lemma pad_led_off_all (xs : list Z) note :
  pad_led ((λ n, Midi.NoteOn 0 n Controller.OFF) <$> xs) note
  = if bool_decide (note ∈ xs) then Some Controller.OFF else None.
Proof.
  induction xs as [|x xs IH]; [done|]. rewrite fmap_cons. cbn [pad_led]. rewrite IH.
  destruct (bool_decide (note ∈ xs)) eqn:Hin.
  - apply bool_decide_eq_true_1 in Hin. rewrite bool_decide_eq_true_2; [done|by right].
  - apply bool_decide_eq_false_1 in Hin. case_decide as Hx.
    + subst. rewrite bool_decide_eq_true_2; [done|by left].
    + rewrite bool_decide_eq_false_2; [done|]. intros [->|?]%elem_of_cons; done.
Qed.

Lemma button_led_notes (xs : list Z) v cc :
  button_led ((λ n, Midi.NoteOn 0 n v) <$> xs) cc = None.
Proof. induction xs as [|x xs IH]; [done|]. rewrite fmap_cons. cbn [button_led]. by rewrite IH. Qed.

Lemma concat_singletons {A B} (f : A → B) (xs : list A) :
  concat ((λ x, [f x]) <$> xs) = f <$> xs.
Proof. induction xs as [|x xs IH]; simpl; [done|]. by f_equal. Qed.

(** *** SysEx of the controller, read by the monitor *)

Lemma forallb_data_byte (data : list Z) :
  forallb Midi.data_byte data = true ↔ Forall (λ b, 0 ≤ b ≤ 127) data.
Proof.
  rewrite forallb_forall, Forall_forall. split.
  - intros H b Hb. apply data_byte_spec, H, list_elem_of_In, Hb.
  - intros H b Hb. apply data_byte_spec, H, list_elem_of_In, Hb.
Qed.

Lemma sysex_push3_command (data : list Z) (timestamp : string) (command : Z) :
  take 5 data = Midi.MANUFACTURER_ID ++ Midi.DEVICE_ID →
  data !! 5%nat = Some command →
  Monitor.format_sysex_message (Midi.Sysex data) timestamp
  = Midi.Return (timestamp ++ " | SYSEX: Push 3 command 0x" ++ Midi.format_02X command
                   ++ " (len: " ++ Midi.str (Z.of_nat (length data)) ++ ")")%string.
Proof.
  intros Hhead Hc. pose proof (lookup_lt_Some _ _ _ Hc) as Hlen.
  assert (H3 : take 3 data = Midi.MANUFACTURER_ID).
  { apply (f_equal (take 3)) in Hhead. rewrite take_take in Hhead. exact Hhead. }
  assert (H2 : take 2 (drop 3 data) = Midi.DEVICE_ID).
  { rewrite take_drop_commute. change (3 + 2)%nat with 5%nat. by rewrite Hhead. }
  unfold Monitor.format_sysex_message.
  rewrite (bool_decide_eq_true_2 (3 ≤ length data)%nat) by lia.
  rewrite (bool_decide_eq_true_2 _ H3), (bool_decide_eq_true_2 (5 ≤ length data)%nat) by lia.
  rewrite (bool_decide_eq_true_2 _ H2). cbn [andb].
  by rewrite bool_decide_eq_true_2, Hc by lia.
Qed.

(** X20.  What [send_sysex] sends, the monitor reads back: a
    [send_sysex(command, data)] that returns has sent one SysEx, and
    [format_sysex_message] reports that message as Push 3 command
    [command], in two hexadecimal digits, of length [6 + len(data)]. *)
Theorem send_sysex_read_back (self : Controller.Push3MIDIController) (p : Midi.port)
    (command : Z) (data : option (list Z)) (sent : list Midi.message) :
  Controller.output_port self = Some p →
  (Controller.send_sysex self command data sent).2 = Midi.Return tt →
  ∃ msg,
    (Controller.send_sysex self command data sent).1 = sent ++ [msg]
    ∧ 0 ≤ command ≤ 127
    ∧ ∀ timestamp,
        Monitor.format_sysex_message msg timestamp
        = Midi.Return (timestamp ++ " | SYSEX: Push 3 command 0x" ++ Midi.format_02X command
                         ++ " (len: " ++ Midi.str (6 + Z.of_nat (length (default [] data)))
                         ++ ")")%string.
Proof.
  intros Hp. unfold Controller.send_sysex. rewrite Hp.
  change (match data with Some d => d | None => [] end) with (default [] data).
  set (d := default [] data).
  set (bytes := Midi.MANUFACTURER_ID ++ Midi.DEVICE_ID ++ [command] ++ d).
  unfold Midi.Message_sysex. destruct (forallb Midi.data_byte bytes) eqn:Hvalid; [|done].
  cbn [Controller.build]. unfold Controller.mbind, Controller.mret, Midi.send.
  destruct (Midi.send_outcome p sent (Midi.Sysex bytes)); [done|]. intros _.
  exists (Midi.Sysex bytes). split; [done|].
  apply forallb_data_byte in Hvalid. split.
  { unfold bytes in Hvalid. simpl in Hvalid.
    by do 5 apply Forall_cons_1 in Hvalid as [_ Hvalid]; apply Forall_cons_1 in Hvalid as [? _]. }
  intros timestamp. rewrite (sysex_push3_command bytes timestamp command); [|done..].
  replace (Z.of_nat (length bytes)) with (6 + Z.of_nat (length d)); [done|].
  unfold bytes. simpl. lia.
Qed.

Lemma send_sysex_read_back_user_mode :
  ∃ msg,
    (Controller.send_sysex connected_controller 0x0A (Some [0x01]) []).1 = [msg]
    ∧ Monitor.format_sysex_message msg "t"
      = Midi.Return "t | SYSEX: Push 3 command 0x0A (len: 7)"%string.
Proof.
  destruct (send_sysex_read_back connected_controller open_port 0x0A (Some [0x01]) [])
    as (msg & Hsent & _ & Hline); [reflexivity..|].
  exists msg. split; [exact Hsent|]. rewrite Hline. reflexivity.
Defined.

(** X21.  [send_sysex] sends nothing it cannot send whole: without an
    output port it raises "No output port available" before it looks at
    its arguments, and with a port, a command or a data byte outside
    [0, 127] raises [ValueError] with nothing sent. *)
Theorem send_sysex_rejects (self : Controller.Push3MIDIController) (command : Z)
    (data : option (list Z)) (sent : list Midi.message) :
  (Controller.output_port self = None →
     Controller.send_sysex self command data sent
     = (sent, Midi.Raised (Midi.RuntimeError "No output port available")))
  ∧ (∀ p, Controller.output_port self = Some p →
       ¬ (0 ≤ command ≤ 127 ∧ Forall (λ b, 0 ≤ b ≤ 127) (default [] data)) →
       Controller.send_sysex self command data sent = (sent, Midi.Raised Midi.ValueError)).
Proof.
  split.
  - intros Hp. unfold Controller.send_sysex. by rewrite Hp.
  - intros p Hp Hbad. unfold Controller.send_sysex. rewrite Hp.
    change (match data with Some d => d | None => [] end) with (default [] data).
    set (d := default [] data) in *.
    unfold Midi.Message_sysex.
    destruct (forallb Midi.data_byte (Midi.MANUFACTURER_ID ++ Midi.DEVICE_ID ++ [command] ++ d))
      eqn:Hvalid; [|done].
    apply forallb_data_byte in Hvalid. simpl in Hvalid.
    do 5 apply Forall_cons_1 in Hvalid as [_ Hvalid].
    apply Forall_cons_1 in Hvalid as [Hc Hd]. by destruct Hbad.
Qed.

Lemma send_sysex_rejects_sample :
  Controller.send_sysex (Controller.init false) 200 None []
  = ([], Midi.Raised (Midi.RuntimeError "No output port available"))
  ∧ Controller.send_sysex connected_controller 200 None [] = ([], Midi.Raised Midi.ValueError).
Proof.
  split.
  - apply (send_sysex_rejects (Controller.init false) 200 None []). reflexivity.
  - apply (send_sysex_rejects connected_controller 200 None [] ) with (p := open_port).
    + reflexivity.
    + intros [Hc _]. lia.
Defined.

(** *** The LED methods *)

Lemma for_each_raises_first {A} (x : A) (xs : list A) (body : A → Controller.MM unit)
    sent sent' e :
  body x sent = (sent', Midi.Raised e) →
  Controller.for_each (x :: xs) body sent = (sent', Midi.Raised e).
Proof. intros H. simpl. unfold Controller.mbind. by rewrite H. Qed.

Lemma output_send_unconnected self msg sent :
  Controller.output_port self = None →
  Controller.output_send self msg sent = (sent, Midi.Raised Midi.AttributeError).
Proof. intros Hp. unfold Controller.output_send. by rewrite Hp. Qed.

Lemma set_button_led_unconnected self cc color sent :
  Controller.output_port self = None → 0 ≤ cc ≤ 127 → 0 ≤ color ≤ 127 →
  Controller.set_button_led self cc color sent = (sent, Midi.Raised Midi.AttributeError).
Proof.
  intros Hp Hcc Hcol. unfold Controller.set_button_led, Midi.Message_control_change.
  rewrite (proj2 (data_byte_spec cc) Hcc), (proj2 (data_byte_spec color) Hcol).
  simpl. unfold Controller.mbind, Controller.mret. by rewrite output_send_unconnected.
Qed.

Lemma set_pad_led_unconnected self note color sent :
  Controller.output_port self = None → 0 ≤ note ≤ 127 → 0 ≤ color ≤ 127 →
  Controller.set_pad_led self note color sent = (sent, Midi.Raised Midi.AttributeError).
Proof.
  intros Hp Hn Hcol. unfold Controller.set_pad_led, Midi.Message_note_on.
  rewrite (proj2 (data_byte_spec note) Hn), (proj2 (data_byte_spec color) Hcol).
  simpl. unfold Controller.mbind, Controller.mret. by rewrite output_send_unconnected.
Qed.

(** X22.  Only [send_sysex] checks for the output port.  On a controller
    without one, the handshake and every LED routine raise
    [AttributeError] at their first message and send nothing; a value
    outside [0, 127] is refused with [ValueError] before the port is
    looked at. *)
Theorem led_methods_unconnected (self : Controller.Push3MIDIController)
    (sent : list Midi.message) :
  Controller.output_port self = None →
  Controller.device_handshake self sent = (sent, Midi.Raised Midi.AttributeError)
  ∧ Controller.test_button_leds self sent = (sent, Midi.Raised Midi.AttributeError)
  ∧ Controller.test_pad_leds self sent = (sent, Midi.Raised Midi.AttributeError)
  ∧ Controller.led_chase_demo self sent = (sent, Midi.Raised Midi.AttributeError)
  ∧ Controller.all_leds_off self sent = (sent, Midi.Raised Midi.AttributeError)
  ∧ (∀ cc color, ¬ (0 ≤ cc ≤ 127 ∧ 0 ≤ color ≤ 127) →
       Controller.set_button_led self cc color sent = (sent, Midi.Raised Midi.ValueError)
       ∧ Controller.set_pad_led self cc color sent = (sent, Midi.Raised Midi.ValueError)).
Proof.
  intros Hp. split; [|split; [|split; [|split; [|split]]]].
  - unfold Controller.device_handshake. cbn [Midi.Message_sysex forallb Controller.build].
    simpl. unfold Controller.mbind, Controller.mret. by rewrite output_send_unconnected.
  - unfold Controller.test_button_leds. unfold Controller.mbind at 1.
    rewrite seqZ_cons by lia.
    erewrite for_each_raises_first; [done|].
    unfold Controller.mbind, Controller.list_item, Controller.mret. simpl.
    by apply set_button_led_unconnected.
  - unfold Controller.test_pad_leds. unfold Controller.mbind at 1.
    rewrite seqZ_cons by lia. simpl zip.
    erewrite for_each_raises_first; [done|].
    by apply set_pad_led_unconnected.
  - unfold Controller.led_chase_demo. unfold Controller.mbind at 1.
    simpl fmap. erewrite for_each_raises_first; [done|].
    unfold Controller.mbind. by rewrite set_button_led_unconnected.
  - unfold Controller.all_leds_off. unfold Controller.mbind at 1.
    rewrite seqZ_cons by lia.
    erewrite for_each_raises_first; [done|].
    by apply set_button_led_unconnected.
  - intros cc color Hbad.
    assert (Hb : Midi.data_byte cc && Midi.data_byte color = false).
    { apply not_true_iff_false. rewrite andb_true_iff, !data_byte_spec. tauto. }
    unfold Controller.set_button_led, Controller.set_pad_led,
      Midi.Message_control_change, Midi.Message_note_on.
    cbn [Midi.channel_ok Z.leb Z.compare andb]. by rewrite Hb.
Qed.

Lemma led_methods_unconnected_sample :
  Controller.all_leds_off (Controller.init false) [] = ([], Midi.Raised Midi.AttributeError).
Proof.
  destruct (led_methods_unconnected (Controller.init false) []) as (_ & _ & _ & _ & H & _).
  - reflexivity.
  - exact H.
Defined.

Lemma emits_all_leds_off self p :
  Controller.output_port self = Some p →
  emits (Controller.all_leds_off self) p
    (((λ c, Midi.ControlChange 0 c Controller.OFF) <$> seqZ 0 128)
     ++ ((λ n, Midi.NoteOn 0 n Controller.OFF) <$> seqZ 0 128)).
Proof.
  intros Hp. unfold Controller.all_leds_off.
  rewrite <- (concat_singletons (λ c, Midi.ControlChange 0 c Controller.OFF)).
  rewrite <- (concat_singletons (λ n, Midi.NoteOn 0 n Controller.OFF)).
  apply emits_seq; apply emits_for_each; intros x Hx%elem_of_seqZ.
  - by apply emits_set_button_led; [|lia|].
  - by apply emits_set_pad_led; [|lia|].
Qed.

(** X23.  An [all_leds_off] that returns has sent 256 messages, and after
    it every button LED and every pad LED, 0 to 127, was last set to
    [OFF], whatever was sent before. *)
Theorem all_leds_off_dark (self : Controller.Push3MIDIController) (p : Midi.port)
    (sent : list Midi.message) :
  Controller.output_port self = Some p →
  (Controller.all_leds_off self sent).2 = Midi.Return tt →
  length (Controller.all_leds_off self sent).1 = (length sent + 256)%nat
  ∧ ∀ k, 0 ≤ k ≤ 127 →
      button_led (Controller.all_leds_off self sent).1 k = Some Controller.OFF
      ∧ pad_led (Controller.all_leds_off self sent).1 k = Some Controller.OFF.
Proof.
  intros Hp Hret.
  rewrite (emits_returns _ p _ sent (emits_all_leds_off self p Hp) Hret).
  split.
  - rewrite !length_app, !length_fmap, !length_seqZ. lia.
  - intros k Hk. assert (Hin : k ∈ seqZ 0 128) by (apply elem_of_seqZ; lia). split.
    + rewrite !button_led_app, button_led_notes, button_led_off_all.
      by rewrite bool_decide_eq_true_2.
    + rewrite !pad_led_app, pad_led_off_all. by rewrite bool_decide_eq_true_2.
Qed.

Lemma all_leds_off_dark_sample :
  button_led (Controller.all_leds_off connected_controller [Midi.ControlChange 0 85 17]).1 85
  = Some Controller.OFF.
Proof.
  destruct (all_leds_off_dark connected_controller open_port [Midi.ControlChange 0 85 17])
    as [_ Hdark].
  - reflexivity.
  - vm_compute. reflexivity.
  - apply Hdark. lia.
Defined.

Lemma emits_cycle_button self p (colors : list Z) x :
  Controller.output_port self = Some p → 0 ≤ x ≤ 127 →
  Forall (λ c, 0 ≤ c ≤ 127) colors → (0 < length colors)%nat →
  emits (Controller.mbind
           (Controller.list_item colors (Z.to_nat (x `mod` Z.of_nat (length colors))))
           (λ color, Controller.set_button_led self x color))
        p [Midi.ControlChange 0 x (colors !!! Z.to_nat (x `mod` Z.of_nat (length colors)))].
Proof.
  intros Hp Hx Hcolors Hlen sent.
  pose proof (Z.mod_pos_bound x (Z.of_nat (length colors)) ltac:(lia)) as Hm.
  destruct (lookup_lt_is_Some_2 colors (Z.to_nat (x `mod` Z.of_nat (length colors))))
    as [c Hc]; [lia|].
  rewrite (list_lookup_total_correct _ _ _ Hc).
  unfold Controller.mbind at 1, Controller.list_item. rewrite Hc.
  unfold Controller.mret at 1.
  apply emits_set_button_led; [done..|]. by eapply (Forall_lookup_1 _ _ _ _ Hcolors).
Qed.

Lemma emits_test_button_leds self p :
  Controller.output_port self = Some p →
  emits (Controller.test_button_leds self) p
    (concat ((λ cc, [Midi.ControlChange 0 cc
                       ([Controller.RED; Controller.GREEN; Controller.BLUE; Controller.YELLOW;
                         Controller.WHITE; Controller.PURPLE; Controller.ORANGE]
                          !!! Z.to_nat (cc `mod` 7))]) <$> seqZ 0 128)
     ++ concat ((λ c, [Midi.ControlChange 0 c Controller.OFF]) <$> seqZ 0 128)).
Proof.
  intros Hp. unfold Controller.test_button_leds. cbv zeta.
  apply emits_seq; apply emits_for_each; intros x Hx%elem_of_seqZ.
  - refine (emits_cycle_button self p
              [Controller.RED; Controller.GREEN; Controller.BLUE; Controller.YELLOW;
               Controller.WHITE; Controller.PURPLE; Controller.ORANGE] x Hp _ _ _);
      [lia| |simpl; lia].
    unfold Controller.RED, Controller.GREEN, Controller.BLUE, Controller.YELLOW,
      Controller.WHITE, Controller.PURPLE, Controller.ORANGE.
    repeat constructor; lia.
  - by apply emits_set_button_led; [|lia|].
Qed.

Lemma emits_test_pad_leds self p :
  Controller.output_port self = Some p →
  emits (Controller.test_pad_leds self) p
    (concat ((λ '(pad, color), [Midi.NoteOn 0 pad color])
               <$> zip (seqZ 36 8)
                     [Controller.RED; Controller.ORANGE; Controller.YELLOW; Controller.GREEN;
                      Controller.CYAN; Controller.BLUE; Controller.PURPLE; Controller.PINK])
     ++ concat ((λ n, [Midi.NoteOn 0 n Controller.OFF]) <$> seqZ 36 8)).
Proof.
  intros Hp. unfold Controller.test_pad_leds. cbv zeta.
  apply emits_seq; apply emits_for_each.
  - assert (Hall : Forall (λ '(pad, color), 0 ≤ pad ≤ 127 ∧ 0 ≤ color ≤ 127)
        (zip (seqZ 36 8)
           [Controller.RED; Controller.ORANGE; Controller.YELLOW; Controller.GREEN;
            Controller.CYAN; Controller.BLUE; Controller.PURPLE; Controller.PINK])).
    { vm_compute zip. repeat constructor; lia. }
    intros [pad color] Hin. rewrite Forall_forall in Hall.
    destruct (Hall _ Hin) as [Hpad Hcol]. by apply emits_set_pad_led.
  - intros x Hx%elem_of_seqZ. by apply emits_set_pad_led; [|lia|].
Qed.

Lemma emits_led_chase_demo self p :
  Controller.output_port self = Some p →
  emits (Controller.led_chase_demo self) p
    (concat ((λ c, [Midi.ControlChange 0 c Controller.GREEN;
                    Midi.ControlChange 0 c Controller.OFF]) <$> Controller.TEST_BUTTONS.*2)
     ++ concat ((λ n, [Midi.NoteOn 0 n Controller.BLUE; Midi.NoteOn 0 n Controller.OFF])
                  <$> seqZ 36 64)).
Proof.
  intros Hp. unfold Controller.led_chase_demo.
  apply emits_seq; apply emits_for_each.
  - assert (Hall : Forall (λ c, 0 ≤ c ≤ 127) (Controller.TEST_BUTTONS.*2))
      by (vm_compute fmap; repeat constructor; lia).
    intros c Hin. rewrite Forall_forall in Hall. specialize (Hall _ Hin).
    apply (emits_seq _ _ p [_] [_]); by apply emits_set_button_led.
  - intros n Hn%elem_of_seqZ.
    apply (emits_seq _ _ p [_] [_]); by apply emits_set_pad_led; [|lia|].
Qed.

(** X24.  Each LED test switches off what it lit.  A [test_button_leds],
    a [test_pad_leds] or a [led_chase_demo] that returns has sent 256, 16
    and 142 messages, and every button or pad LED those messages set was
    last set to [OFF]. *)
Theorem led_tests_end_dark (self : Controller.Push3MIDIController) (p : Midi.port)
    (sent : list Midi.message) :
  Controller.output_port self = Some p →
  ((Controller.test_button_leds self sent).2 = Midi.Return tt →
     ∃ ms, (Controller.test_button_leds self sent).1 = sent ++ ms
           ∧ length ms = 256%nat ∧ leaves_dark ms)
  ∧ ((Controller.test_pad_leds self sent).2 = Midi.Return tt →
       ∃ ms, (Controller.test_pad_leds self sent).1 = sent ++ ms
             ∧ length ms = 16%nat ∧ leaves_dark ms)
  ∧ ((Controller.led_chase_demo self sent).2 = Midi.Return tt →
       ∃ ms, (Controller.led_chase_demo self sent).1 = sent ++ ms
             ∧ length ms = 142%nat ∧ leaves_dark ms).
Proof.
  intros Hp. split; [|split]; intros Hret; eexists.
  - split; [apply (emits_returns _ p _ sent (emits_test_button_leds self p Hp) Hret)|].
    split; [vm_compute; reflexivity|apply leaves_darkb_spec; vm_compute; reflexivity].
  - split; [apply (emits_returns _ p _ sent (emits_test_pad_leds self p Hp) Hret)|].
    split; [vm_compute; reflexivity|apply leaves_darkb_spec; vm_compute; reflexivity].
  - split; [apply (emits_returns _ p _ sent (emits_led_chase_demo self p Hp) Hret)|].
    split; [vm_compute; reflexivity|apply leaves_darkb_spec; vm_compute; reflexivity].
Qed.

Lemma led_tests_end_dark_sample :
  ∃ ms, (Controller.test_pad_leds connected_controller []).1 = ms
        ∧ length ms = 16%nat ∧ leaves_dark ms.
Proof.
  destruct (led_tests_end_dark connected_controller open_port []) as (_ & Hpads & _).
  - reflexivity.
  - destruct Hpads as (ms & Hsent & Hlen & Hdark); [vm_compute; reflexivity|].
    exists ms. split; [exact Hsent|]. split; [exact Hlen|exact Hdark].
Defined.

(** * More on the monitor and the handshake *)

(** X25.  No earlier table hides the encoders and the display buttons:
    controls 71 to 78 are reported as encoders 1 to 8 turned, left for
    value 127 and right for value 1; controls 102 to 109 as upper display
    buttons 1 to 8 and controls 20 to 27 as lower display buttons 1 to 8,
    pressed when the value is positive. *)
Theorem format_cc_message_numbering (channel cc value : Z) (timestamp : string) :
  (71 ≤ cc ≤ 78 →
     Monitor.format_cc_message (Midi.ControlChange channel cc value) timestamp
     = Midi.Return (timestamp ++ " | ENCODER: Encoder " ++ Midi.str (cc - 70) ++ " turned "
                      ++ (if decide (value = 127) then "LEFT"
                          else if decide (value = 1) then "RIGHT"
                          else "UNKNOWN(" ++ Midi.str value ++ ")"))%string)
  ∧ (102 ≤ cc ≤ 109 →
       Monitor.format_cc_message (Midi.ControlChange channel cc value) timestamp
       = Midi.Return (timestamp ++ " | DISPLAY: Upper button " ++ Midi.str (cc - 101) ++ " "
                        ++ (if decide (0 < value) then "PRESSED" else "RELEASED"))%string)
  ∧ (20 ≤ cc ≤ 27 →
       Monitor.format_cc_message (Midi.ControlChange channel cc value) timestamp
       = Midi.Return (timestamp ++ " | DISPLAY: Lower button " ++ Midi.str (cc - 19) ++ " "
                        ++ (if decide (0 < value) then "PRESSED" else "RELEASED"))%string).
Proof.
  split; [|split]; intros Hcc.
  - assert (H : cc = 71 ∨ cc = 72 ∨ cc = 73 ∨ cc = 74 ∨ cc = 75 ∨ cc = 76 ∨ cc = 77 ∨ cc = 78)
      by lia.
    destruct H as [->|[->|[->|[->|[->|[->|[->| ->]]]]]]]; reflexivity.
  - assert (H : cc = 102 ∨ cc = 103 ∨ cc = 104 ∨ cc = 105 ∨ cc = 106 ∨ cc = 107
                ∨ cc = 108 ∨ cc = 109) by lia.
    destruct H as [->|[->|[->|[->|[->|[->|[->| ->]]]]]]]; reflexivity.
  - assert (H : cc = 20 ∨ cc = 21 ∨ cc = 22 ∨ cc = 23 ∨ cc = 24 ∨ cc = 25 ∨ cc = 26 ∨ cc = 27)
      by lia.
    destruct H as [->|[->|[->|[->|[->|[->|[->| ->]]]]]]]; reflexivity.
Qed.

Lemma format_cc_message_numbering_sample :
  Monitor.format_cc_message (Midi.ControlChange 0 72 1) "t"
  = Midi.Return "t | ENCODER: Encoder 2 turned RIGHT"%string.
Proof.
  destruct (format_cc_message_numbering 0 72 1 "t") as [Henc _].
  rewrite Henc by lia. reflexivity.
Defined.

Lemma emits_device_handshake self p :
  Controller.output_port self = Some p →
  emits (Controller.device_handshake self) p
    [Midi.Sysex [0x7E; 0x7F; 0x06; 0x01]; Midi.Sysex [0x00; 0x21; 0x1D; 0x01; 0x01; 0x0A; 0x01]].
Proof.
  intros Hp. unfold Controller.device_handshake. cbv zeta.
  change (Midi.Message_sysex [126; 127; 6; 1])
    with (Midi.Return (Midi.Sysex [126; 127; 6; 1])).
  change (Midi.Message_sysex (Midi.MANUFACTURER_ID ++ Midi.DEVICE_ID ++ [10; 1]))
    with (Midi.Return (Midi.Sysex [0; 33; 29; 1; 1; 10; 1])).
  cbn [Controller.build].
  apply (emits_seq (Controller.output_send self _) _ p [_] [_]).
  - by apply emits_send.
  - intros sent. unfold Controller.mbind at 1, Controller.mret at 1.
    by apply emits_send.
Qed.

(** X26.  A handshake that returns has sent two SysEx messages, the
    universal device inquiry [7E 7F 06 01] and then the user-mode command;
    the monitor reads the first as another manufacturer's message of
    length 4 and the second as Push 3 command [0x0A] of length 7. *)
Theorem device_handshake_messages (self : Controller.Push3MIDIController) (p : Midi.port)
    (sent : list Midi.message) :
  Controller.output_port self = Some p →
  (Controller.device_handshake self sent).2 = Midi.Return tt →
  ∃ inquiry user_mode,
    (Controller.device_handshake self sent).1 = sent ++ [inquiry; user_mode]
    ∧ inquiry = Midi.Sysex [0x7E; 0x7F; 0x06; 0x01]
    ∧ (∀ timestamp,
         Monitor.format_sysex_message inquiry timestamp
         = Midi.Return (timestamp ++ " | SYSEX: Other manufacturer (len: 4)")%string
         ∧ Monitor.format_sysex_message user_mode timestamp
           = Midi.Return (timestamp ++ " | SYSEX: Push 3 command 0x0A (len: 7)")%string).
Proof.
  intros Hp Hret. eexists _, _.
  split; [apply (emits_returns _ p _ sent (emits_device_handshake self p Hp) Hret)|].
  split; [reflexivity|]. intros timestamp. split; reflexivity.
Qed.

Lemma device_handshake_messages_sample :
  ∃ inquiry user_mode,
    (Controller.device_handshake connected_controller []).1 = [inquiry; user_mode]
    ∧ Monitor.format_sysex_message user_mode "t"
      = Midi.Return "t | SYSEX: Push 3 command 0x0A (len: 7)"%string.
Proof.
  destruct (device_handshake_messages connected_controller open_port [])
    as (inquiry & user_mode & Hsent & _ & Hlines); [reflexivity..|].
  exists inquiry, user_mode. split; [exact Hsent|].
  destruct (Hlines "t"%string) as [_ Hline]. rewrite Hline. reflexivity.
Defined.
